(** * curricula: the grading library, embedded and verified

    A shallow embedding of the parts of csci104/curricula that its
    specification talks about: the Valgrind adapter
    ([grade/library/valgrind.py]), the assignment runner
    ([curricula/grade/__init__.py]), the command-line plugin
    ([curricula/grade/plugin.py]) and the correctness tests
    ([tests/correctness/tests.py]).

    Python values are modelled as the code has them: [Optional[str]] is
    [option string], a [dict] looked up by key is a [gmap], a [dict] whose
    order is observed is an association list, an exception is a value of
    [exn] carried by the result type [res].  The file system and the log
    are threaded explicitly through a state-and-error monad [M]. *)

From Stdlib Require Import ZArith QArith String Ascii List Bool Lia.
From Stdlib Require Import DecimalString DecimalFacts DecimalPos DecimalZ.
From stdpp Require Import base option list gmap strings.

Set Warnings "-register-all".
Open Scope string_scope.
Open Scope list_scope.
Open Scope Z_scope.

(** ** Python exceptions and results *)

(** The exceptions the modelled code can raise.  [AttributeError a] is the
    failure of [x.a] (here always on [None] or on an object without the
    attribute), [KeyError k] of [d[k]] or [d.pop(k)], [NameError n] of reading
    an unbound global [n]. *)
Inductive exn : Type :=
| AttributeError (attr : string)
| KeyError (key : string)
| NameError (name : string)
| TypeError
| ValueError
| ParseError
| IsADirectoryError
| FileNotFoundError
| NotADirectoryError.

(** Python's class hierarchy: [LookupError] is the base of [KeyError] and
    [IndexError] only. *)
Definition is_LookupError (e : exn) : bool :=
  match e with
  | KeyError _ => true
  | _ => false
  end.

Inductive res (A : Type) : Type :=
| Ok (a : A)
| Raise (e : exn).
Arguments Ok {A} a.
Arguments Raise {A} e.

Definition res_bind {A B} (m : res A) (k : A -> res B) : res B :=
  match m with
  | Ok a => k a
  | Raise e => Raise e
  end.

#[global] Instance res_ret : MRet res := @Ok.
#[global] Instance res_mbind : MBind res := fun A B k m => res_bind m k.

Definition raises {A} (m : res A) : Prop := exists e, m = Raise e.
Definition returns {A} (m : res A) : Prop := exists a, m = Ok a.

(** ** Python's [int(text, base)] on ASCII text

    Follows CPython's [PyLong_FromString]: leading whitespace, one optional
    sign, for base 16 an optional [0x]/[0X] prefix (after which one
    underscore may follow), then digits with single underscores between
    them, then trailing whitespace up to the end.  Anything else is a
    [ValueError]; [None] is a [TypeError]. *)

Definition is_space (c : ascii) : bool :=
  match c with
  | " "%char | "009"%char | "010"%char | "011"%char | "012"%char | "013"%char => true
  | _ => false
  end.

Fixpoint lstrip (s : string) : string :=
  match s with
  | String c rest => if is_space c then lstrip rest else s
  | EmptyString => s
  end.

Definition digit_value (c : ascii) : option Z :=
  let n := Z.of_N (N_of_ascii c) in
  if (48 <=? n) && (n <=? 57) then Some (n - 48)
  else if (97 <=? n) && (n <=? 122) then Some (n - 87)
  else if (65 <=? n) && (n <=? 90) then Some (n - 55)
  else None.

(** The digit loop: [prev_us] tells whether the previous character was an
    underscore, [digits] counts the digits read, [acc] is their value. *)
Fixpoint scan_digits (base : Z) (prev_us : bool) (digits : nat) (acc : Z)
    (s : string) : option (Z * nat * string) :=
  let stop := if prev_us then None else Some (acc, digits, s) in
  match s with
  | String c rest =>
      if Ascii.eqb c "_"%char then
        if prev_us then None else scan_digits base true digits acc rest
      else
        match digit_value c with
        | Some d =>
            if d <? base then scan_digits base false (S digits) (acc * base + d) rest
            else stop
        | None => stop
        end
  | EmptyString => stop
  end.

Definition strip_sign (s : string) : Z * string :=
  match s with
  | String "+"%char rest => (1, rest)
  | String "-"%char rest => (-1, rest)
  | _ => (1, s)
  end.

Definition strip_prefix (base : Z) (s : string) : string :=
  match s with
  | String "0"%char (String x rest) =>
      if (base =? 16) && (Ascii.eqb x "x"%char || Ascii.eqb x "X"%char) then
        match rest with
        | String "_"%char rest' => rest'
        | _ => rest
        end
      else s
  | _ => s
  end.

Definition int_of_string (base : Z) (s : string) : res Z :=
  let '(sign, s) := strip_sign (lstrip s) in
  let s := strip_prefix base s in
  match s with
  | String "_"%char _ => Raise ValueError
  | _ =>
      match scan_digits base false 0%nat 0 s with
      | Some (v, digits, rest) =>
          match digits, lstrip rest with
          | S _, EmptyString => Ok (sign * v)
          | _, _ => Raise ValueError
          end
      | None => Raise ValueError
      end
  end.

(** [int(x, base)] and [int(x)] where [x] is [Optional[str]]. *)
Definition py_int (base : Z) (x : option string) : res Z :=
  match x with
  | None => Raise TypeError
  | Some s => int_of_string base s
  end.

(** ** XML elements ([xml.etree.ElementTree.Element])

    An element has a tag, a text that is [None] when the element is empty,
    and children.  As in ElementTree, an element is false in a boolean
    context when it has no children, whatever its text. *)
Inductive Element : Type :=
| mkElement (tag : string) (text : option string) (children : list Element).

Module Element.
Definition tag (e : Element) : string := let 'mkElement t _ _ := e in t.
Definition text (e : Element) : option string := let 'mkElement _ x _ := e in x.
Definition children (e : Element) : list Element := let 'mkElement _ _ c := e in c.

(** [element.find(name)] for a plain tag name: the first child with that
    tag, or [None]. *)
Definition find (e : Element) (name : string) : option Element :=
  List.find (fun c => String.eqb (tag c) name) (children e).

(** Truth value of [Optional[Element]]: [None] is false, and an element is
    true exactly when [len(element) != 0]. *)
Definition truth (x : option Element) : bool :=
  match x with
  | None => false
  | Some e => negb (Nat.eqb (List.length (children e)) 0)
  end.

(** [a or b]. *)
Definition or_ (a b : option Element) : option Element :=
  if truth a then a else b.

(** [x.text] where [x] may be [None]. *)
Definition text_of (x : option Element) : res (option string) :=
  match x with
  | None => Raise (AttributeError "text")
  | Some e => Ok (text e)
  end.
End Element.

(** ** The world outside the interpreter

    A path names a directory or a file; a file holds either a well-formed
    XML document, given by its root element, or other text.  The journal
    collects what the code sends to the [curricula] logger, and the clock
    is what [timeit.default_timer] reads, in seconds. *)
Inductive content : Type :=
| Document (root : Element)
| Text (data : string).

Inductive node : Type :=
| File (c : content)
| Directory.

Inductive level : Type := INFO | DEBUG.

Record World : Type := mkWorld {
  files : gmap string node;
  journal : list (level * string);
  clock : Q
}.

Definition set_files (f : gmap string node -> gmap string node) (w : World) : World :=
  mkWorld (f (files w)) (journal w) (clock w).

(** State and exceptions: a computation reads and changes the world and
    either returns or raises; what it did before raising stays done. *)
Definition M (A : Type) : Type := World -> res A * World.

#[global] Instance M_ret : MRet M := fun A a w => (Ok a, w).
#[global] Instance M_bind : MBind M := fun A B k m w =>
  match m w with
  | (Ok a, w') => k a w'
  | (Raise e, w') => (Raise e, w')
  end.

Definition lift {A} (r : res A) : M A := fun w => (r, w).

Module os.
(** [os.path.exists(path)]. *)
Definition exists_ (path : string) : M bool :=
  fun w => (Ok (bool_decide (is_Some (files w !! path))), w).

(** [os.remove(path)]. *)
Definition remove (path : string) : M unit :=
  fun w =>
    match files w !! path with
    | Some (File _) => (Ok tt, set_files (delete path) w)
    | Some Directory => (Raise IsADirectoryError, w)
    | None => (Raise FileNotFoundError, w)
    end.
End os.

(** [parse(open(path)).getroot()]: opening a missing path or a directory
    fails, and so does parsing a file that holds no XML document. *)
Definition parse_getroot (path : string) : M Element :=
  fun w =>
    match files w !! path with
    | Some (File (Document root)) => (Ok root, w)
    | Some (File (Text _)) => (Raise ParseError, w)
    | Some Directory => (Raise IsADirectoryError, w)
    | None => (Raise FileNotFoundError, w)
    end.

(** ** [grade/library/process.py] (its [Runtime]) *)

(** Modelled from the spec: [process.Runtime] is not among the sources; the
    specification gives its fields as stdout, stderr, exit code (negative
    for a signal, undefined after a timeout), elapsed time and timeout
    flag. *)
Record Runtime : Type := mkRuntime {
  stdout : string;
  stderr : string;
  code : option Z;
  elapsed : Q;
  timeout : bool
}.

(** ** [grade/library/valgrind.py] *)

Module ValgrindWhat.
Record t : Type := mk {
  text : option string;
  fields : gmap string (option string)
}.

(** One turn of the loop over the children of an [xwhat] element. *)
Definition visit (acc : option string * gmap string (option string))
    (child : Element) : option string * gmap string (option string) :=
  let '(text, fields) := acc in
  if String.eqb (Element.tag child) "tag" then (Element.text child, fields)
  else (text, <[Element.tag child := Element.text child]> fields).

Definition load (element : option Element) : option t :=
  match element with
  | None => None
  | Some element =>
      if String.eqb (Element.tag element) "what" then
        Some (mk (Element.text element) ∅)
      else
        let '(text, fields) :=
          fold_left visit (Element.children element) (Some "", ∅) in
        Some (mk text fields)
  end.
End ValgrindWhat.

Module ValgrindError.
Record t : Type := mk {
  unique : Z;
  tid : Z;
  kind : option string;
  what : option ValgrindWhat.t
}.

Definition load (element : Element) : res t :=
  unique_text ← Element.text_of (Element.find element "unique");
  unique ← py_int 16 unique_text;
  tid_text ← Element.text_of (Element.find element "tid");
  tid ← py_int 10 tid_text;
  kind ← Element.text_of (Element.find element "kind");
  let what :=
    ValgrindWhat.load
      (Element.or_ (Element.find element "what") (Element.find element "xwhat")) in
  Ok (mk unique tid kind what).
End ValgrindError.

Definition leak_kinds : list string :=
  ["Leak_DefinitelyLost"; "Leak_IndirectlyLost"; "Leak_PossiblyLost"].

(** [kind in ("Leak_DefinitelyLost", "Leak_IndirectlyLost", "Leak_PossiblyLost")]. *)
Definition is_leak (kind : option string) : bool :=
  match kind with
  | Some k => existsb (String.eqb k) leak_kinds
  | None => false
  end.

(** [int(error.what.fields[name])], evaluated left to right. *)
Definition leaked (name : string) (error : ValgrindError.t) : res Z :=
  match ValgrindError.what error with
  | None => Raise (AttributeError "fields")
  | Some what =>
      match ValgrindWhat.fields what !! name with
      | None => Raise (KeyError name)
      | Some value => py_int 10 value
      end
  end.

Module ValgrindReport.
Record t : Type := mk {
  runtime : Runtime;
  errors : option (list ValgrindError.t)
}.

(** The body of [memory_lost]'s loop, from the current counters. *)
Fixpoint count (errors : list ValgrindError.t) (leaked_bytes leaked_blocks : Z)
    : res (Z * Z) :=
  match errors with
  | [] => Ok (leaked_bytes, leaked_blocks)
  | error :: rest =>
      if is_leak (ValgrindError.kind error) then
        b ← leaked "leakedbytes" error;
        let leaked_bytes := leaked_bytes + b in
        k ← leaked "leakedblocks" error;
        let leaked_blocks := leaked_blocks + k in
        count rest leaked_bytes leaked_blocks
      else count rest leaked_bytes leaked_blocks
  end.

(** Iterating over [None] is a [TypeError]. *)
Definition memory_lost (self : t) : res (Z * Z) :=
  match errors self with
  | None => Raise TypeError
  | Some errors => count errors 0 0
  end.
End ValgrindReport.

Module valgrind.
Definition VALGRIND_ARGS : list string :=
  ["valgrind"; "--tool=memcheck"; "--leak-check=yes"; "--xml=yes"].
Definition VALGRIND_XML_FILE : string := "valgrind.xml".

(** The command line [run] hands to [process.run]. *)
Definition command (args : list string) : list string :=
  VALGRIND_ARGS ++ [String.append "--xml-file=" VALGRIND_XML_FILE] ++ args.

(** The loop over the children of the document's root. *)
Fixpoint load_errors (children : list Element) (errors : list ValgrindError.t)
    : res (list ValgrindError.t) :=
  match children with
  | [] => Ok errors
  | child :: rest =>
      if String.eqb (Element.tag child) "error" then
        error ← ValgrindError.load child;
        load_errors rest (errors ++ [error])
      else load_errors rest errors
  end.

Section run.
(** [process.run], which starts the command and waits for it: whatever the
    process does to the world, and the [Runtime] observed. *)
Variable process_run : list string -> Q -> M Runtime.

Definition run (args : list string) (timeout : Q) : M ValgrindReport.t :=
  runtime ← process_run (command args) timeout;
  present ← os.exists_ VALGRIND_XML_FILE;
  if (present : bool) then
    root ← parse_getroot VALGRIND_XML_FILE;
    errors ← lift (load_errors (Element.children root) []);
    _ ← os.remove VALGRIND_XML_FILE;
    mret (ValgrindReport.mk runtime (Some errors))
  else mret (ValgrindReport.mk runtime None).
End run.
End valgrind.

(** ** What the specification says of the adapter *)

Module valgrind_spec.
Import ValgrindReport.

(** What the specification says [memory_lost] computes: the entries of a
    leak kind, and the sum of one of their fields. *)
Definition leak_entries (errors : list ValgrindError.t) : list ValgrindError.t :=
  List.filter (fun e => is_leak (ValgrindError.kind e)) errors.

Definition field_value (name : string) (e : ValgrindError.t) : Z :=
  match leaked name e with
  | Ok n => n
  | Raise _ => 0
  end.

Definition total (name : string) (errors : list ValgrindError.t) : Z :=
  fold_right Z.add 0 (List.map (field_value name) (leak_entries errors)).

(** An entry [memory_lost] can read: both fields are there and are integers. *)
Definition readable (e : ValgrindError.t) : Prop :=
  returns (leaked "leakedbytes" e) /\ returns (leaked "leakedblocks" e).

(** An entry of a leak kind whose explanation is absent or lacks a field. *)
Definition lacking (e : ValgrindError.t) : Prop :=
  is_leak (ValgrindError.kind e) = true /\
  match ValgrindError.what e with
  | None => True
  | Some w =>
      ValgrindWhat.fields w !! "leakedbytes" = None \/
      ValgrindWhat.fields w !! "leakedblocks" = None
  end.

(** The text of the last child of a given tag, if there is such a child. *)
Definition last_text (name : string) (children : list Element)
    : option (option string) :=
  Element.text <$>
    last (List.filter (fun c => String.eqb (Element.tag c) name) children).

(** What the specification says of an [xwhat] node: the [tag] child gives
    the text (empty when there is none), every other child a named field. *)
Definition xwhat_text (children : list Element) : option string :=
  default (Some "") (last_text "tag" children).

Definition xwhat_field (name : string) (children : list Element)
    : option (option string) :=
  if String.eqb name "tag" then None else last_text name children.
End valgrind_spec.


(** ** Sample reports *)

Module samples.
(** A definite leak of 128 bytes in 2 blocks, as Valgrind's [xwhat] gives it. *)
Definition leak_element : Element :=
  mkElement "error" None
    [mkElement "unique" (Some "0x1a") [];
     mkElement "tid" (Some "1") [];
     mkElement "kind" (Some "Leak_DefinitelyLost") [];
     mkElement "xwhat" None
       [mkElement "text" (Some "128 bytes in 2 blocks are definitely lost") [];
        mkElement "leakedbytes" (Some "128") [];
        mkElement "leakedblocks" (Some "2") []]].

(** An invalid read, explained by a plain [what]. *)
Definition read_element : Element :=
  mkElement "error" None
    [mkElement "unique" (Some "0x1b") [];
     mkElement "tid" (Some "1") [];
     mkElement "kind" (Some "InvalidRead") [];
     mkElement "what" (Some "Invalid read of size 4") []].

(** An error element that lost its [unique] child. *)
Definition torn_element : Element :=
  mkElement "error" None
    [mkElement "tid" (Some "1") [];
     mkElement "kind" (Some "InvalidRead") []].

Definition report_document : Element :=
  mkElement "valgrindoutput" None
    [mkElement "protocolversion" (Some "4") []; leak_element; read_element].

Definition torn_document : Element :=
  mkElement "valgrindoutput" None [torn_element].

Definition leak_error : ValgrindError.t :=
  ValgrindError.mk 26 1 (Some "Leak_DefinitelyLost")
    (Some (ValgrindWhat.mk (Some "")
       (<["text" := Some "128 bytes in 2 blocks are definitely lost"]>
          (<["leakedbytes" := Some "128"]> (<["leakedblocks" := Some "2"]> ∅))))).

Definition read_error : ValgrindError.t :=
  ValgrindError.mk 27 1 (Some "InvalidRead") None.

(** A leak entry that has no explanation at all. *)
Definition bare_leak : ValgrindError.t :=
  ValgrindError.mk 28 1 (Some "Leak_PossiblyLost") None.

Definition quiet : Runtime := mkRuntime "" "" (Some 0) 0 false.

Definition sample_report : ValgrindReport.t :=
  ValgrindReport.mk quiet (Some [leak_error; read_error]).

(** A process that ends at once and touches nothing. *)
Definition idle (command : list string) (timeout : Q) : M Runtime :=
  fun w => (Ok quiet, w).

Definition world_of (c : content) : World :=
  mkWorld {[valgrind.VALGRIND_XML_FILE := File c]} [] 0.

Definition empty_world : World := mkWorld ∅ [] 0.
End samples.

(** ** Ordered dictionaries

    A Python [dict] whose order is observed: pairs in insertion order, with
    [d[key] = value] replacing the value in place when the key is there and
    adding the pair at the end when it is not. *)
Section dict.
Context {V : Type}.

Fixpoint setitem (d : list (string * V)) (key : string) (value : V)
    : list (string * V) :=
  match d with
  | [] => [(key, value)]
  | (k, v) :: rest =>
      if String.eqb k key then (k, value) :: rest
      else (k, v) :: setitem rest key value
  end.

Fixpoint getitem (d : list (string * V)) (key : string) : option V :=
  match d with
  | [] => None
  | (k, v) :: rest => if String.eqb k key then Some v else getitem rest key
  end.

Definition keys (d : list (string * V)) : list string := List.map fst d.

(** [d.pop(key)]: the value and the dictionary without the key. *)
Fixpoint pop (d : list (string * V)) (key : string)
    : res (V * list (string * V)) :=
  match d with
  | [] => Raise (KeyError key)
  | (k, v) :: rest =>
      if String.eqb k key then Ok (v, rest)
      else
        match pop rest key with
        | Ok (x, rest') => Ok (x, (k, v) :: rest')
        | Raise e => Raise e
        end
  end.

(** [d.update(pairs)] and [dict(pairs)]. *)
Definition update (d pairs : list (string * V)) : list (string * V) :=
  fold_left (fun d '(k, v) => setitem d k v) pairs d.

Definition dict_of (pairs : list (string * V)) : list (string * V) :=
  update [] pairs.
End dict.

(** ** [curricula/grade/__init__.py] *)

Module grade.

(** [logging]: a call on the [curricula] logger is recorded in the journal. *)
Definition log_info (message : string) : M unit :=
  fun w => (Ok tt, mkWorld (files w) (journal w ++ [(INFO, message)]) (clock w)).
Definition log_debug (message : string) : M unit :=
  fun w => (Ok tt, mkWorld (files w) (journal w ++ [(DEBUG, message)]) (clock w)).

(** [timeit.default_timer()]. *)
Definition default_timer : M Q := fun w => (Ok (clock w), w).

Section run.
(** [grade.report.Result], whatever a grader returns for one task. *)
Variable Result : Type.
(** [path.joinpath(relative)], on the text of the paths. *)
Variable joinpath : string -> string -> string.
(** The text of [round(elapsed, 5)]. *)
Variable round5 : Q -> string.

(** [grade.resource]: a submission is the pair of paths the runner builds,
    a context carries the target (when there is one) and the options. *)
Record Submission : Type := mkSubmission {
  assignment_path : string;
  problem_path : string
}.

Record Context : Type := mkContext {
  target : option string;
  options : list (string * string)
}.

(** [grade.models]: of a problem the runner reads [short],
    [relative_path], [grading.is_automated] and [grader], which it runs. *)
Record GradingProblem : Type := mkProblem {
  short : string;
  relative_path : string;
  is_automated : bool;
  grader_run : Submission -> Context -> M (list Result)
}.

Record GradingAssignment : Type := mkAssignment {
  problems : list GradingProblem
}.

(** Modelled from the spec: [grade.report.AssignmentReport] is not among
    the sources; the specification has it as an ordered mapping from problem
    short name to ordered Result sequence, built incrementally. *)
Definition AssignmentReport : Type := list (string * list Result).

Definition submission_of (assignment_path : string) (problem : GradingProblem)
    : Submission :=
  mkSubmission assignment_path (joinpath assignment_path (relative_path problem)).

(** The loop of [run] over the automated problems. *)
Fixpoint run_problems (todo : list GradingProblem) (assignment_path : string)
    (options : list (string * string)) (reports : AssignmentReport)
    : M AssignmentReport :=
  match todo with
  | [] => mret reports
  | problem :: rest =>
      _ ← log_debug (String.append "running problem " (short problem));
      let submission := submission_of assignment_path problem in
      let context := mkContext None options in
      results ← grader_run problem submission context;
      run_problems rest assignment_path options
        (setitem reports (short problem) results)
  end.

Definition automated (assignment : GradingAssignment) : list GradingProblem :=
  List.filter is_automated (problems assignment).

Definition run (assignment : GradingAssignment) (assignment_path : string)
    (options : list (string * string)) : M AssignmentReport :=
  _ ← log_info (String.append "running " assignment_path);
  let reports : AssignmentReport := [] in
  start ← default_timer;
  reports ← run_problems (automated assignment) assignment_path options reports;
  stop ← default_timer;
  let elapsed := (stop - start)%Q in
  _ ← log_debug
        (String.append "finished in " (String.append (round5 elapsed) " seconds"));
  mret reports.

(** *** The calls of one run

    What [run] did in one run, read off the worlds the run went through:
    one [call] for each grader it started, with the world the grader was
    started in, what the grader did there, and the world it left. *)
Record call : Type := mkCall {
  problem : GradingProblem;
  before : World;
  outcome : res (list Result);
  after : World
}.

(** The world [run] is in once it has logged its first line. *)
Definition started (assignment_path : string) (w : World) : World :=
  (log_info (String.append "running " assignment_path) w).2.

(** The calls the loop makes from world [w], in order: it logs its line,
    starts the grader of the next problem in the world it is then in, and
    goes on from the world that grader left; a grader that raises ends the
    loop, so the problems after it are not called. *)
Fixpoint calls (todo : list GradingProblem) (assignment_path : string)
    (options : list (string * string)) (w : World) : list call :=
  match todo with
  | [] => []
  | problem :: rest =>
      let w0 := (log_debug (String.append "running problem " (short problem)) w).2 in
      let submission := submission_of assignment_path problem in
      let context := mkContext None options in
      let '(r, w1) := grader_run problem submission context w0 in
      mkCall problem w0 r w1 ::
        match r with
        | Ok _ => calls rest assignment_path options w1
        | Raise _ => []
        end
  end.

(** A recorded call is the grader's own: started in [before c] on the
    submission and the context [run] builds, it did [outcome c] and left
    [after c]. *)
Definition called (assignment_path : string) (options : list (string * string))
    (c : call) : Prop :=
  grader_run (problem c) (submission_of assignment_path (problem c))
    (mkContext None options) (before c) = (outcome c, after c).

(** The results the graders returned, call by call. *)
Fixpoint results (cs : list call) : list (list Result) :=
  match cs with
  | [] => []
  | c :: rest =>
      match outcome c with
      | Ok r => r :: results rest
      | Raise _ => results rest
      end
  end.

(** The exception of the call that raised, when one did. *)
Fixpoint failure (cs : list call) : option exn :=
  match cs with
  | [] => None
  | c :: rest =>
      match outcome c with
      | Ok _ => failure rest
      | Raise x => Some x
      end
  end.

(** The world the last call left ([w] when there was no call). *)
Fixpoint final (w : World) (cs : list call) : World :=
  match cs with
  | [] => w
  | c :: rest => final (after c) rest
  end.

(** The calls follow one another: each grader is started in the world the
    call before it left (the first in [w]), once the loop has logged its
    line for the problem. *)
Fixpoint chained (w : World) (cs : list call) : Prop :=
  match cs with
  | [] => True
  | c :: rest =>
      before c
        = (log_debug (String.append "running problem " (short (problem c))) w).2 /\
      chained (after c) rest
  end.

(** The world [run], started in [w], leaves when its loop ended in [w1]:
    the closing line is logged with the time that passed on the clock. *)
Definition finished (w w1 : World) : World :=
  (log_debug
     (String.append "finished in "
        (String.append (round5 (clock w1 - clock w)%Q) " seconds")) w1).2.

(** A call that left the files and the journal as it found them. *)
Definition silent (c : call) : Prop :=
  files (after c) = files (before c) /\ journal (after c) = journal (before c).
End run.
End grade.

Module grade_samples.
Import grade.

(** Three problems, the second graded by hand; results are task names. *)
Definition answers (results : list string) (s : Submission) (c : Context)
    : M (list string) :=
  fun w => (Ok results, w).

Definition hw1 : GradingAssignment string :=
  mkAssignment string
    [mkProblem string "linked_list" "linked_list" true
       (answers ["test_push"; "test_pop"]);
     mkProblem string "essay" "essay" false (answers []);
     mkProblem string "heap" "heap" true (answers ["test_heapify"])].

Definition slash (a b : string) : string := String.append a (String.append "/" b).
Definition seconds (q : Q) : string := "0.0".
End grade_samples.

(** ** Literal structures and [json]

    The literal Python structures without floats: [None], booleans,
    integers, strings, lists, and dictionaries with string keys.  A float
    is no such structure, nor is a dictionary with another kind of key: a
    value that holds a timing field is outside this type, and nothing
    below speaks of it.  A character of a string is a code point below
    256. *)
Inductive literal : Type :=
| LNone
| LBool (b : bool)
| LInt (n : Z)
| LStr (s : string)
| LList (items : list literal)
| LDict (items : list (string * literal)).

(** Keys of every dictionary are pairwise distinct, as in any [dict]. *)
Fixpoint distinct_keys (v : literal) : bool :=
  match v with
  | LList items => forallb distinct_keys items
  | LDict items =>
      bool_decide (NoDup (keys items)) &&
      forallb (fun '(_, x) => distinct_keys x) items
  | _ => true
  end.

(** The number of values in a structure, counting each item once more. *)
Fixpoint weight (v : literal) : nat :=
  match v with
  | LList items => S (list_sum (List.map (fun x => S (weight x)) items))
  | LDict items => S (list_sum (List.map (fun '(_, x) => S (weight x)) items))
  | _ => 1
  end.

Module json.
Local Open Scope string_scope.

(** *** [json.dumps(obj, indent=2)]

    The encoder with its defaults: [ensure_ascii], separators [","] and
    [": "], one item per line, two more spaces per level. *)

Definition hex_char (n : N) : ascii :=
  if (n <? 10)%N then ascii_of_N (48 + n) else ascii_of_N (87 + n).

(** One character of a string: the short escapes, the characters from
    space to tilde as they are, four lower-case hex digits for the rest. *)
Definition encode_char (c : ascii) : string :=
  let n := N_of_ascii c in
  if (n =? 34)%N then "\" ++ String c ""
  else if (n =? 92)%N then "\\"
  else if (n =? 10)%N then "\n"
  else if (n =? 13)%N then "\r"
  else if (n =? 9)%N then "\t"
  else if (n =? 8)%N then "\b"
  else if (n =? 12)%N then "\f"
  else if (32 <=? n)%N && (n <=? 126)%N then String c ""
  else "\u00" ++ String (hex_char (n / 16)) (String (hex_char (n mod 16)) "").

Fixpoint encode_chars (s : string) : string :=
  match s with
  | EmptyString => EmptyString
  | String c rest => encode_char c ++ encode_chars rest
  end.

Definition quote : ascii := ascii_of_N 34.

Definition encode_string (s : string) : string :=
  String quote (encode_chars s ++ String quote "").

(** [str(n)] for an integer. *)
Definition encode_int (n : Z) : string :=
  DecimalString.NilZero.string_of_int (Z.to_int n).

Fixpoint spaces (n : nat) : string :=
  match n with
  | O => EmptyString
  | S n => String " " (spaces n)
  end.

Definition newline_indent (level : nat) : string :=
  String "010" (spaces (2 * level)%nat).

Section items.
(** What follows the first item of a list or dictionary: before each
    further item the separator [lead], after the last one [close]. *)
Context {A : Type} (enc : A -> string) (lead close : string).

Fixpoint more (items : list A) : string :=
  match items with
  | [] => close
  | x :: items => lead ++ enc x ++ more items
  end.
End items.

(** A key and its value, given the encoder of values. *)
Definition encode_pair (enc : literal -> string) (p : string * literal) : string :=
  let '(key, x) := p in encode_string key ++ ": " ++ enc x.

Fixpoint encode (level : nat) (v : literal) : string :=
  match v with
  | LNone => "null"
  | LBool true => "true"
  | LBool false => "false"
  | LInt n => encode_int n
  | LStr s => encode_string s
  | LList [] => "[]"
  | LList (first :: others) =>
      "[" ++ newline_indent (S level) ++ encode (S level) first ++
      more (encode (S level)) ("," ++ newline_indent (S level))
        (newline_indent level ++ "]") others
  | LDict [] => "{}"
  | LDict (first :: others) =>
      "{" ++ newline_indent (S level) ++ encode_pair (encode (S level)) first ++
      more (encode_pair (encode (S level))) ("," ++ newline_indent (S level))
        (newline_indent level ++ "}") others
  end.

Definition dumps (obj : literal) : string := encode 0 obj.

(** *** [json.loads(text)]

    The decoder, on the texts whose values are literal structures: a text
    that is no JSON, or whose numbers are floats, or whose escapes name a
    code point from 256 on, has no value here. *)

Definition is_ws (c : ascii) : bool :=
  match c with
  | " "%char | "009"%char | "010"%char | "013"%char => true
  | _ => false
  end.

Fixpoint skip_ws (s : string) : string :=
  match s with
  | String c rest => if is_ws c then skip_ws rest else s
  | EmptyString => s
  end.

Definition unescape (c : ascii) : option ascii :=
  let n := N_of_ascii c in
  if (n =? 34)%N || (n =? 92)%N || (n =? 47)%N then Some c
  else if (n =? 98)%N then Some (ascii_of_N 8)
  else if (n =? 102)%N then Some (ascii_of_N 12)
  else if (n =? 110)%N then Some (ascii_of_N 10)
  else if (n =? 114)%N then Some (ascii_of_N 13)
  else if (n =? 116)%N then Some (ascii_of_N 9)
  else None.

Definition hex_value (c : ascii) : option Z :=
  match digit_value c with
  | Some d => if (d <? 16)%Z then Some d else None
  | None => None
  end.

Definition hex4 (a b c d : ascii) : option Z :=
  match hex_value a, hex_value b, hex_value c, hex_value d with
  | Some x, Some y, Some z, Some t => Some (((x * 16 + y) * 16 + z) * 16 + t)%Z
  | _, _, _, _ => None
  end.

(** The inside of a string, from after the opening quote to after the
    closing one. *)
Fixpoint scanstring (s : string) : option (string * string) :=
  match s with
  | EmptyString => None
  | String c rest =>
      let n := N_of_ascii c in
      if (n =? 34)%N then Some (EmptyString, rest)
      else if (n =? 92)%N then
        match rest with
        | String e rest' =>
            if (N_of_ascii e =? 117)%N then
              match rest' with
              | String h1 (String h2 (String h3 (String h4 rest''))) =>
                  match hex4 h1 h2 h3 h4 with
                  | Some code =>
                      if (code <? 256)%Z then
                        match scanstring rest'' with
                        | Some (text, after) =>
                            Some (String (ascii_of_N (Z.to_N code)) text, after)
                        | None => None
                        end
                      else None
                  | None => None
                  end
              | _ => None
              end
            else
              match unescape e with
              | Some x =>
                  match scanstring rest' with
                  | Some (text, after) => Some (String x text, after)
                  | None => None
                  end
              | None => None
              end
        | EmptyString => None
        end
      else if (n <? 32)%N then None
      else
        match scanstring rest with
        | Some (text, after) => Some (String c text, after)
        | None => None
        end
  end.

Definition digit_of (c : ascii) : option (Decimal.uint -> Decimal.uint) :=
  match c with
  | "0"%char => Some Decimal.D0
  | "1"%char => Some Decimal.D1
  | "2"%char => Some Decimal.D2
  | "3"%char => Some Decimal.D3
  | "4"%char => Some Decimal.D4
  | "5"%char => Some Decimal.D5
  | "6"%char => Some Decimal.D6
  | "7"%char => Some Decimal.D7
  | "8"%char => Some Decimal.D8
  | "9"%char => Some Decimal.D9
  | _ => None
  end.

Definition is_digit (c : ascii) : bool :=
  match digit_of c with Some _ => true | None => false end.

(** The longest run of digits at the head of the text. *)
Fixpoint read_digits (s : string) : Decimal.uint * string :=
  match s with
  | String c rest =>
      match digit_of c with
      | Some d => let '(u, after) := read_digits rest in (d u, after)
      | None => (Decimal.Nil, s)
      end
  | EmptyString => (Decimal.Nil, s)
  end.

(** Does a fraction or an exponent follow?  Then the number is a float. *)
Definition float_follows (s : string) : bool :=
  match s with
  | String "."%char (String d _) => is_digit d
  | String e rest =>
      if Ascii.eqb e "e" || Ascii.eqb e "E" then
        match rest with
        | String x (String d _) =>
            is_digit x || ((Ascii.eqb x "+" || Ascii.eqb x "-") && is_digit d)
        | String x EmptyString => is_digit x
        | EmptyString => false
        end
      else false
  | EmptyString => false
  end.

(** An integer: an optional minus, then [0] alone or a run of digits. *)
Definition match_number (s : string) : option (Z * string) :=
  let '(negative, body) :=
    match s with
    | String c rest => if Ascii.eqb c "-" then (true, rest) else (false, s)
    | EmptyString => (false, s)
    end in
  match body with
  | String c rest =>
      if is_digit c then
        let '(u, after) :=
          if Ascii.eqb c "0" then (Decimal.D0 Decimal.Nil, rest)
          else read_digits body in
        if float_follows after then None
        else Some (if negative then (- Z.of_uint u)%Z else Z.of_uint u, after)
      else None
  | EmptyString => None
  end.

Fixpoint strip (word s : string) : option string :=
  match word, s with
  | EmptyString, _ => Some s
  | String a word, String b s => if Ascii.eqb a b then strip word s else None
  | String _ _, EmptyString => None
  end.

(** The items of a non-empty array, from its first value on. *)
Fixpoint array_loop (item : string -> option (literal * string)) (fuel : nat)
    (s : string) : option (list literal * string) :=
  match fuel with
  | O => None
  | S fuel =>
      match item s with
      | None => None
      | Some (value, after) =>
          match skip_ws after with
          | String c after =>
              if Ascii.eqb c "]" then Some ([value], after)
              else if Ascii.eqb c "," then
                match array_loop item fuel (skip_ws after) with
                | Some (values, after) => Some (value :: values, after)
                | None => None
                end
              else None
          | EmptyString => None
          end
      end
  end.

(** The pairs of a non-empty object, from the quote of its first key on. *)
Fixpoint object_loop (item : string -> option (literal * string)) (fuel : nat)
    (s : string) : option (list (string * literal) * string) :=
  match fuel with
  | O => None
  | S fuel =>
      match s with
      | String q after =>
          if Ascii.eqb q quote then
            match scanstring after with
            | None => None
            | Some (key, after) =>
                match skip_ws after with
                | String c after =>
                    if Ascii.eqb c ":" then
                      match item (skip_ws after) with
                      | None => None
                      | Some (value, after) =>
                          match skip_ws after with
                          | String c after =>
                              if Ascii.eqb c "}" then Some ([(key, value)], after)
                              else if Ascii.eqb c "," then
                                match object_loop item fuel (skip_ws after) with
                                | Some (pairs, after) =>
                                    Some ((key, value) :: pairs, after)
                                | None => None
                                end
                              else None
                          | EmptyString => None
                          end
                      end
                    else None
                | EmptyString => None
                end
            end
          else None
      | EmptyString => None
      end
  end.

(** One value at the head of the text, and the text after it. *)
Fixpoint scan_once (fuel : nat) (s : string) : option (literal * string) :=
  match fuel with
  | O => None
  | S fuel =>
      match s with
      | EmptyString => None
      | String c rest =>
          if Ascii.eqb c quote then
            match scanstring rest with
            | Some (text, after) => Some (LStr text, after)
            | None => None
            end
          else if Ascii.eqb c "{" then
            match skip_ws rest with
            | EmptyString => None
            | String c' after as body =>
                if Ascii.eqb c' "}" then Some (LDict [], after)
                else
                  match object_loop (scan_once fuel) fuel body with
                  | Some (pairs, after) => Some (LDict (dict_of pairs), after)
                  | None => None
                  end
            end
          else if Ascii.eqb c "[" then
            match skip_ws rest with
            | EmptyString => None
            | String c' after as body =>
                if Ascii.eqb c' "]" then Some (LList [], after)
                else
                  match array_loop (scan_once fuel) fuel body with
                  | Some (values, after) => Some (LList values, after)
                  | None => None
                  end
            end
          else if Ascii.eqb c "n" then
            match strip "null" s with
            | Some after => Some (LNone, after)
            | None => None
            end
          else if Ascii.eqb c "t" then
            match strip "true" s with
            | Some after => Some (LBool true, after)
            | None => None
            end
          else if Ascii.eqb c "f" then
            match strip "false" s with
            | Some after => Some (LBool false, after)
            | None => None
            end
          else
            match match_number s with
            | Some (n, after) => Some (LInt n, after)
            | None => None
            end
      end
  end.

(** What may follow a value in an encoded text: the end, a comma or a
    line break. *)
Definition boundary (rest : string) : bool :=
  match rest with
  | EmptyString => true
  | String c _ => Ascii.eqb c "," || Ascii.eqb c "010"
  end.

(** The whole text is one value between optional whitespace. *)
Definition loads (s : string) : option literal :=
  match scan_once (S (String.length s)) (skip_ws s) with
  | Some (value, after) =>
      match skip_ws after with
      | EmptyString => Some value
      | String _ _ => None
      end
  | None => None
  end.
End json.


(** ** [curricula/grade/plugin.py] *)

Module plugin.

(** What [args] can be: the [argparse.Namespace] the parser produces, which
    has attributes and no [pop], or a dictionary. *)
Inductive arguments : Type :=
| Namespace (attributes : list (string * string))
| Mapping (items : list (string * string)).

(** [args.pop(key)]. *)
Definition args_pop (args : arguments) (key : string)
    : res (string * list (string * string)) :=
  match args with
  | Namespace _ => Raise (AttributeError "pop")
  | Mapping items => pop items key
  end.

(** *** Opening the report file

    A path is the text [str(Path(...))] gives, in pathlib's normal form: no
    component is empty, [.] or [..], and no slash ends it.  There are no
    symbolic links and the process may write wherever it may look. *)




(** The directories a path goes through, outermost first: what the text
    has before each of its slashes, the root left out. *)
Fixpoint above (seen path : string) : list string :=
  match path with
  | EmptyString => []
  | String c rest =>
      if Ascii.eqb c "/" then
        match seen with
        | EmptyString => []
        | _ => [seen]
        end ++ above (String.append seen "/") rest
      else above (String.append seen (String c EmptyString)) rest
  end.

(** Walking down the directories: the first that is missing or is a file
    stops the walk. *)
Fixpoint blocked (files : gmap string node) (directories : list string)
    : option exn :=
  match directories with
  | [] => None
  | d :: rest =>
      match files !! d with
      | Some Directory => blocked files rest
      | Some (File _) => Some NotADirectoryError
      | None => Some FileNotFoundError
      end
  end.

(** The current directory and the root are directories of every world. *)
Definition is_dir (files : gmap string node) (path : string) : bool :=
  match files !! path with
  | Some Directory => true
  | _ => existsb (String.eqb path) [""; "."; "/"]
  end.

(** What [open(path, "w")] raises, if it raises: a directory on the way
    is missing or is a file, or the path itself is a directory. *)
Definition refusal (files : gmap string node) (path : string) : option exn :=
  match blocked files (above EmptyString path) with
  | Some x => Some x
  | None => if is_dir files path then Some IsADirectoryError else None
  end.

(** [path.open("w")]: the file is created or emptied, in a directory that
    is there. *)
Definition open_w (path : string) : M unit :=
  fun w =>
    match refusal (files w) path with
    | Some x => (Raise x, w)
    | None => (Ok tt, set_files (<[path := File (Text "")]>) w)
    end.

(** Writing the whole text to the open file. *)
Definition write (path data : string) : M unit :=
  fun w => (Ok tt, set_files (<[path := File (Text data)]>) w).

(** The exit status of the interpreter when the command ends this way. *)
Definition exit_code {A} (outcome : res A) : Z :=
  match outcome with
  | Ok _ => 0
  | Raise _ => 1
  end.

Section plugin.
(** [grade.grader.Grader] with its [run(context=...)], the report it
    returns with its [dump()], [Path.absolute] on the text of a path, and
    [shell.summarize.summarize]: none of them is among the sources. *)
Variable Grader Report : Type.
Variable grader_run : Grader -> grade.Context -> M Report.
Variable dump : Report -> literal.
Variable absolute : string -> string.

(** The objects a global name of the module can be bound to. *)
Inductive object : Type :=
| AModule (name : string)
| AClass (name : string)
| AFunction (name : string)
| ATuple (items : list string)
| AGrader (grader : Grader).

Variable summarize : object -> list (string * string) -> M unit.

Definition MODES : list string := ["parallel"; "linear"].

(** The global names [plugin.py] binds: its imports, [MODES], [single] and
    [GradePlugin]. *)
Definition module_globals : list (string * object) :=
  [("argparse", AModule "argparse");
   ("json", AModule "json");
   ("Path", AClass "Path");
   ("Grader", AClass "Grader");
   ("Context", AClass "Context");
   ("summarize", AFunction "summarize");
   ("Plugin", AClass "Plugin");
   ("MODES", ATuple MODES);
   ("single", AFunction "single");
   ("GradePlugin", AClass "GradePlugin")].

(** Reading a global name. *)
Definition load_global (globals : list (string * object)) (name : string)
    : res object :=
  match getitem globals name with
  | Some o => Ok o
  | None => Raise (NameError name)
  end.

(** [grader.run(context=context)]. *)
Definition call_run (grader : object) (context : grade.Context) : M Report :=
  match grader with
  | AGrader g => grader_run g context
  | _ => lift (Raise (AttributeError "run"))
  end.

(** [single]: the context holds the dictionary [args] as it is once
    ["target"] is popped. *)
Definition single (grader : object) (args : arguments) : M unit :=
  '(target, items) ← lift (args_pop args "target");
  let context := grade.mkContext (Some (absolute target)) items in
  report ← call_run grader context;
  '(path, items) ← lift (args_pop (Mapping items) "report");
  _ ← open_w path;
  write path (json.dumps (dump report)).

(** [GradePlugin.run], with the module's globals at the time of the call. *)
Definition run (globals : list (string * object)) (args : arguments) : M unit :=
  '(command, items) ← lift (args_pop args "command");
  if String.eqb command "single" then
    _ ← lift (load_global globals "single");
    grader ← lift (load_global globals "grader");
    single grader (Mapping items)
  else if String.eqb command "summarize" then
    _ ← lift (load_global globals "summarize");
    grader ← lift (load_global globals "grader");
    summarize grader items
  else mret tt.
End plugin.
End plugin.


Module plugin_samples.
Import plugin.

(** A grader that reports the target it was given. *)
Definition echo (g : unit) (context : grade.Context) : M string :=
  fun w => (Ok (default "" (grade.target context)), w).

Definition as_literal (r : string) : literal := LDict [("target", LStr r)].
Definition under_home (p : string) : string := String.append "/home/grader/" p.
Definition no_summary (g : object unit) (items : list (string * string)) : M unit :=
  mret tt.

Definition command_line : list (string * string) :=
  [("command", "single"); ("target", "alice"); ("report", "alice.json")].
End plugin_samples.

(** ** [grade/library/process.py] *)

Module process.
(** Modelled from the spec: [grade/library/process.py] is not among the
    sources.  The specification has [run(command, args, timeout)] spawn the
    command, capture its output and enforce a wall-clock deadline: on
    expiry the process is terminated, [timeout] is set, the exit code is
    undefined and the output is whatever was produced; on a normal exit the
    code is the exit status; on termination by a signal it is the negative
    signal number.  A started process is described by what it writes and
    when, how long it runs when left alone, and how it ends. *)
Inductive ending : Type :=
| Exited (status : Z)
| Signaled (signal : Z).

Record Execution : Type := mkExecution {
  written_out : list (Q * string);
  written_err : list (Q * string);
  duration : Q;
  finish : ending
}.

(** What has been written up to a moment. *)
Fixpoint produced (until : Q) (pieces : list (Q * string)) : string :=
  match pieces with
  | [] => ""
  | (time, text) :: pieces =>
      if Qle_bool time until then String.append text (produced until pieces)
      else produced until pieces
  end.

Definition exit_code (e : ending) : Z :=
  match e with
  | Exited status => status
  | Signaled signal => - signal
  end.

(** The [Runtime] observed under a deadline: the process ends within it,
    or the deadline expires first. *)
Definition observe (x : Execution) (timeout : Q) : Runtime :=
  if Qle_bool (duration x) timeout then
    mkRuntime (produced (duration x) (written_out x))
      (produced (duration x) (written_err x))
      (Some (exit_code (finish x))) (duration x) false
  else
    mkRuntime (produced timeout (written_out x))
      (produced timeout (written_err x)) None timeout true.

Section run.
(** Starting a command in a world: the execution that follows, and the
    world the process leaves, killed at the deadline or not. *)
Variable start : list string -> Q -> World -> Execution * World.

Definition run (command : list string) (timeout : Q) : M Runtime :=
  fun w => let '(x, w') := start command timeout w in (Ok (observe x timeout), w').
End run.

Definition SIGSEGV : Z := 11.
End process.

(** ** [tests/correctness/tests.py] *)

Module tests.

(** Modelled from the spec: [grade.resource] is not among the sources.  A
    [Logger] is an ordered sink whose lines carry an indentation depth,
    chosen by indexing ([log[2](...)]) and 0 by default; an [Executable]
    wraps the path of a compiled program and runs it through the process
    runner. *)
Definition Logger : Type := list (Z * list literal).

Definition log_at (depth : Z) (parts : list literal) (log : Logger) : Logger :=
  log ++ [(depth, parts)].

Record Executable : Type := mkExecutable { path : string }.

(** Modelled from the spec: [grade.test.correctness.CorrectnessResult], a
    pass/fail outcome with the [Runtime] it was read from. *)
Record CorrectnessResult : Type := mkCorrectnessResult {
  passing : bool;
  runtime : Runtime
}.

(** [str.split(newline)] and [str.strip()], on code points below 256. *)
Fixpoint split_lines (s : string) : list string :=
  match s with
  | EmptyString => [EmptyString]
  | String c rest =>
      if Ascii.eqb c "010" then EmptyString :: split_lines rest
      else
        match split_lines rest with
        | line :: lines => String c line :: lines
        | [] => [String c EmptyString]
        end
  end.

Definition is_py_space (c : ascii) : bool :=
  let n := N_of_ascii c in
  ((9 <=? n) && (n <=? 13) || (28 <=? n) && (n <=? 32) || (n =? 133) || (n =? 160))%N.

Fixpoint py_lstrip (s : list ascii) : list ascii :=
  match s with
  | c :: rest => if is_py_space c then py_lstrip rest else s
  | [] => []
  end.

Definition strip (s : string) : string :=
  string_of_list_ascii
    (rev (py_lstrip (rev (py_lstrip (list_ascii_of_string s))))).

Definition nonempty (s : string) : bool :=
  match s with
  | EmptyString => false
  | String _ _ => true
  end.

Definition code_value (code : option Z) : literal :=
  match code with
  | Some n => LInt n
  | None => LNone
  end.

(** [code != n] and [code == n] for a code that may be [None]. *)
Definition code_is (code : option Z) (n : Z) : bool :=
  match code with
  | Some m => m =? n
  | None => false
  end.

Section tests.
Variable start : list string -> Q -> World -> process.Execution * World.

(** [program.execute], given the arguments and the timeout. *)
Definition execute (program : Executable) (args : list string) (timeout : Q)
    : M Runtime :=
  process.run start (path program :: args) timeout.

(** The lines of stderr, each logged at depth [depth]. *)
Definition log_lines (depth : Z) (stderr : string) (log : Logger) : Logger :=
  fold_left (fun log line => log_at depth [LStr line] log)
    (List.filter nonempty (split_lines stderr)) log.

Definition test_fault (log : Logger) (program : Executable)
    : M (CorrectnessResult * Logger) :=
  runtime ← execute program ["fault"] 1%Q;
  if negb (code_is (code runtime) 0) then
    let log := log_at 2 [LStr "received return code"; code_value (code runtime)] log in
    let log := log_lines 4 (stderr runtime) log in
    let log :=
      if code_is (code runtime) (-11) then log_at 4 [LStr "segmentation fault"] log
      else log in
    mret (mkCorrectnessResult false runtime, log)
  else
    let passing := String.eqb (strip (stdout runtime)) "pass" in
    let log := log_at 0 [LStr "expected pass, got fail"] log in
    mret (mkCorrectnessResult passing runtime, log).

Definition test_timeout (log : Logger) (program : Executable)
    : M (CorrectnessResult * Logger) :=
  runtime ← execute program ["hang"] 1%Q;
  if timeout runtime then mret (mkCorrectnessResult false runtime, log)
  else if negb (code_is (code runtime) 0) then
    let log := log_at 0 [LStr "received return code"; code_value (code runtime)] log in
    let log := log_lines 2 (stderr runtime) log in
    let log :=
      if code_is (code runtime) (-11) then log_at 2 [LStr "segmentation fault"] log
      else log in
    mret (mkCorrectnessResult false runtime, log)
  else
    let passing := String.eqb (strip (stdout runtime)) "pass" in
    let log := log_at 0 [LStr "expected pass, got fail"] log in
    mret (mkCorrectnessResult passing runtime, log).
End tests.
End tests.

(** ** What the further properties speak of *)

Module coverage_spec.
(** The children of a document's root that are [error] elements. *)
Definition error_children (children : list Element) : list Element :=
  List.filter (fun c => String.eqb (Element.tag c) "error") children.

(** An [xwhat] element as Valgrind writes it, with a [text] child and no
    [tag] child. *)
Definition valgrind_xwhat : Element :=
  mkElement "xwhat" None
    [mkElement "text" (Some "16 bytes in 1 blocks are possibly lost") [];
     mkElement "leakedbytes" (Some "1") [];
     mkElement "leakedbytes" (Some "16") [];
     mkElement "leakedblocks" (Some "1") []].

(** The value a dictionary built from pairs holds under a key: that of the
    last pair with the key. *)
Definition last_value {V : Type} (pairs : list (string * V)) (key : string)
    : option V :=
  snd <$> List.find (fun p => String.eqb (fst p) key) (rev pairs).

(** Two problems under one short name, and one whose grader fails. *)
Definition twice : grade.GradingAssignment string :=
  grade.mkAssignment string
    [grade.mkProblem string "heap" "heap_v1" true
       (fun _ _ w => (Ok ["test_old"], w));
     grade.mkProblem string "heap" "heap_v2" true
       (fun _ _ w => (Ok ["test_new"], w))].

Definition broken : grade.GradingAssignment string :=
  grade.mkAssignment string
    [grade.mkProblem string "list" "list" true (fun _ _ w => (Ok ["test_a"], w));
     grade.mkProblem string "heap" "heap" true (fun _ _ w => (Raise ValueError, w));
     grade.mkProblem string "tree" "tree" true (fun _ _ w => (Ok ["test_b"], w))].

(** Leak entries whose explanation has no [leakedblocks]: one whose
    [leakedbytes] is a number, one whose [leakedbytes] is not, and one
    whose [leakedbytes] element was empty. *)
Definition half_leak : ValgrindError.t :=
  ValgrindError.mk 29 1 (Some "Leak_DefinitelyLost")
    (Some (ValgrindWhat.mk None (<["leakedbytes" := Some "16"]> ∅))).

Definition garbled_leak : ValgrindError.t :=
  ValgrindError.mk 30 1 (Some "Leak_DefinitelyLost")
    (Some (ValgrindWhat.mk None (<["leakedbytes" := Some "abc"]> ∅))).

Definition hollow_leak : ValgrindError.t :=
  ValgrindError.mk 31 1 (Some "Leak_DefinitelyLost")
    (Some (ValgrindWhat.mk None (<["leakedbytes" := None]> ∅))).

(** Graders that depend on the world they are started in: one leaves a
    build log among the files, the other works only where the log is. *)
Definition builds (s : grade.Submission) (c : grade.Context) : M (list string) :=
  fun w => (Ok ["test_build"], set_files (<["build.log" := File (Text "ok")]>) w).

Definition checks (s : grade.Submission) (c : grade.Context) : M (list string) :=
  fun w =>
    match files w !! "build.log" with
    | Some _ => (Ok ["test_check"], w)
    | None => (Raise FileNotFoundError, w)
    end.

Definition staged : grade.GradingAssignment string :=
  grade.mkAssignment string
    [grade.mkProblem string "build" "build" true builds;
     grade.mkProblem string "check" "check" true checks].

Definition unstaged : grade.GradingAssignment string :=
  grade.mkAssignment string
    [grade.mkProblem string "check" "check" true checks;
     grade.mkProblem string "build" "build" true builds].
End coverage_spec.

(** ** [tests/correctness/tests.py], the other tests *)

Module tests_more.
Import tests.

Section tests_more.
Variable start : list string -> Q -> World -> process.Execution * World.

Definition test_pass (program : Executable) : M CorrectnessResult :=
  runtime ← execute start program ["pass"] 1%Q;
  let passing := String.eqb (strip (stdout runtime)) "pass" in
  mret (mkCorrectnessResult passing runtime).

Definition test_fail (log : Logger) (program : Executable)
    : M (CorrectnessResult * Logger) :=
  runtime ← execute start program ["fail"] 1%Q;
  let passing := String.eqb (strip (stdout runtime)) "pass" in
  let result := mkCorrectnessResult passing runtime in
  let log :=
    if negb passing then
      log_at 2 [LStr "expected pass, got"; LStr (strip (stdout runtime))] log
    else log in
  mret (result, log).

Definition test_error (log : Logger) (program : Executable)
    : M (CorrectnessResult * Logger) :=
  runtime ← execute start program ["error"] 1%Q;
  if negb (code_is (code runtime) 0) then
    let log := log_at 2 [LStr "received return code"; code_value (code runtime)] log in
    let log := log_lines 4 (stderr runtime) log in
    mret (mkCorrectnessResult false runtime, log)
  else
    let passing := String.eqb (strip (stdout runtime)) "pass" in
    let log := log_at 2 [LStr "expected pass, got fail"] log in
    mret (mkCorrectnessResult passing runtime, log).
End tests_more.

(** A program that prints pass and is then killed by SIGABRT, and one that
    prints pass and ends well. *)
Definition late_abort : process.Execution :=
  process.mkExecution [((1 # 10)%Q, String.append "pass" (String "010" ""))]
    [((2 # 10)%Q, "abort")] (3 # 10)%Q (process.Signaled 6).

Definition good : process.Execution :=
  process.mkExecution [((1 # 10)%Q, String.append "pass" (String "010" ""))] []
    (2 # 10)%Q (process.Exited 0).

Definition always (x : process.Execution) (command : list string) (timeout : Q)
    (w : World) : process.Execution * World := (x, w).
End tests_more.

(** ** [curricula/build/tools/generate.py]: validators and prompting *)

Module generate.

(** What the terminal offers to [input()]: a line, or an interrupt; when
    nothing is left, [input()] meets the end of the input. *)
Inductive key : Type :=
| Line (text : string)
| Interrupt.

(** What the program shows: a prompt of [input], or a printed line. *)
Inductive shown : Type :=
| Prompt (text : string)
| Print (text : string).

(** How a read ends: with the text, with [EOFError], or with
    [KeyboardInterrupt]. *)
Inductive reply (A : Type) : Type :=
| Got (a : A)
| EOFError
| KeyboardInterrupt.
Arguments Got {A} a.
Arguments EOFError {A}.
Arguments KeyboardInterrupt {A}.

(** A validator answers and may print. *)
Definition Validator : Type := string -> bool * list shown.

Definition validate_not_empty : Validator :=
  fun string =>
    if Nat.eqb (String.length string) 0 then (false, [Print "Must not be empty!"])
    else (true, []).

(** [str.isnumeric()] on code points below 256: the digits, the
    superscripts one to three and the three vulgar fractions; the empty
    string is not numeric. *)
Definition is_numeric_char (c : ascii) : bool :=
  let n := N_of_ascii c in
  ((48 <=? n) && (n <=? 57) || (n =? 178) || (n =? 179) || (n =? 185) ||
   (188 <=? n) && (n <=? 190))%N.

Definition isnumeric (s : string) : bool :=
  match s with
  | EmptyString => false
  | _ => forallb is_numeric_char (list_ascii_of_string s)
  end.

Definition validate_numeric : Validator :=
  fun string =>
    if negb (isnumeric string) then (false, [Print "Must be a positive integer!"])
    else (true, []).

(** [str.lower()] on code points below 256. *)
Definition lower_char (c : ascii) : ascii :=
  let n := N_of_ascii c in
  if ((65 <=? n) && (n <=? 90) ||
      (192 <=? n) && (n <=? 222) && negb (n =? 215))%N
  then ascii_of_N (n + 32) else c.

Fixpoint lower (s : string) : string :=
  match s with
  | EmptyString => EmptyString
  | String c rest => String (lower_char c) (lower rest)
  end.

Definition validate_boolean : Validator :=
  fun string =>
    if negb (existsb (String.eqb (lower string)) ["y"; "n"; "yes"; "no"]) then
      (false, [Print "Must be (y)es or (n)o!"])
    else (true, []).

(** [response.lower().startswith("y")], how an accepted answer is read. *)
Definition answers_yes (response : string) : bool :=
  match lower response with
  | String c _ => Ascii.eqb c "y"
  | EmptyString => false
  end.

(** [all(validator(response) for validator in validators)]: the
    validators are called in order up to the first that refuses. *)
Fixpoint all_valid (validators : list Validator) (response : string)
    : bool * list shown :=
  match validators with
  | [] => (true, [])
  | validator :: validators =>
      let '(ok, out) := validator response in
      if ok then
        let '(ok', out') := all_valid validators response in (ok', out ++ out')
      else (false, out)
  end.

(** [validated_input(prompt, *validators)]: the answer, what is left of
    the input, and what was shown. *)
Fixpoint validated_input (prompt : string) (validators : list Validator)
    (input : list key) : reply string * list key * list shown :=
  match input with
  | [] => (EOFError, [], [Prompt prompt])
  | Interrupt :: rest => (KeyboardInterrupt, rest, [Prompt prompt])
  | Line response :: rest =>
      let '(ok, out) := all_valid validators response in
      if ok then (Got response, rest, Prompt prompt :: out)
      else
        let '(answer, rest', out') := validated_input prompt validators rest in
        (answer, rest', Prompt prompt :: out ++ out')
  end.




End generate.
(** * Properties *)

(** ** Results *)

Lemma returns_Ok {A} (a : A) : returns (Ok a).
Proof. by exists a. Qed.

Lemma raises_Raise {A} (e : exn) : raises (@Raise A e).
Proof. by exists e. Qed.

Lemma raises_not_returns {A} (m : res A) : raises m -> ~ returns m.
Proof. intros [e ->] [a Ha]. discriminate. Qed.

#[global] Hint Resolve returns_Ok raises_Raise : core.

(** ** The Valgrind adapter *)

Module valgrind_facts.
Import ValgrindReport valgrind_spec.

Lemma count_leak e rest a b x y :
  is_leak (ValgrindError.kind e) = true ->
  leaked "leakedbytes" e = Ok x ->
  leaked "leakedblocks" e = Ok y ->
  count (e :: rest) a b = count rest (a + x) (b + y).
Proof. intros Hk Hx Hy. simpl. rewrite Hk, Hx. simpl. rewrite Hy. reflexivity. Qed.

Lemma count_other e rest a b :
  is_leak (ValgrindError.kind e) = false ->
  count (e :: rest) a b = count rest a b.
Proof. intros Hk. simpl. by rewrite Hk. Qed.

(** [int] raises nothing but a [TypeError], on [None], or a [ValueError]. *)
Lemma py_int_raises base value x :
  py_int base value = Raise x -> x = TypeError \/ x = ValueError.
Proof.
  destruct value as [s|]; simpl; [|intros [= <-]; by left].
  unfold int_of_string. destruct (strip_sign (lstrip s)) as [sign s'].
  generalize (scan_digits base false 0%nat 0 (strip_prefix base s')).
  intros o H. right.
  assert (match o with
          | Some (v, digits, rest0) =>
              match digits, lstrip rest0 with
              | S _, EmptyString => Ok (sign * v)
              | _, _ => Raise ValueError
              end
          | None => Raise ValueError
          end = Raise x -> x = ValueError) as Hscan.
  { clear. intros H. destruct o as [[[v digits] rest0]|]; [|by injection H].
    destruct digits; [by injection H|].
    destruct (lstrip rest0); [discriminate | by injection H]. }
  destruct (strip_prefix base s') as [|c rest]; [by apply Hscan|].
  destruct c as [[] [] [] [] [] [] [] []];
    first [by apply Hscan | by injection H].
Qed.

Lemma count_raise_bytes e rest a b x :
  is_leak (ValgrindError.kind e) = true ->
  leaked "leakedbytes" e = Raise x ->
  count (e :: rest) a b = Raise x.
Proof. intros Hk Hx. simpl. by rewrite Hk, Hx. Qed.

Lemma count_raise_blocks e rest a b x y :
  is_leak (ValgrindError.kind e) = true ->
  leaked "leakedbytes" e = Ok x ->
  leaked "leakedblocks" e = Raise y ->
  count (e :: rest) a b = Raise y.
Proof. intros Hk Hx Hy. simpl. rewrite Hk, Hx. simpl. by rewrite Hy. Qed.


Lemma total_cons_leak name e es :
  is_leak (ValgrindError.kind e) = true ->
  total name (e :: es) = field_value name e + total name es.
Proof. intros Hk. unfold total, leak_entries. simpl. by rewrite Hk. Qed.

Lemma total_cons_other name e es :
  is_leak (ValgrindError.kind e) = false ->
  total name (e :: es) = total name es.
Proof. intros Hk. unfold total, leak_entries. simpl. by rewrite Hk. Qed.

(** When every leak entry is readable the loop ends, and adds the two sums
    to the counters it started from. *)
Lemma count_totals es : forall a b,
  (forall e, In e es -> is_leak (ValgrindError.kind e) = true -> readable e) ->
  count es a b = Ok (a + total "leakedbytes" es, b + total "leakedblocks" es).
Proof.
  induction es as [|e es IH]; intros a b Hall.
  - simpl. unfold total. simpl. f_equal. f_equal; lia.
  - destruct (is_leak (ValgrindError.kind e)) eqn:Hk.
    + destruct (Hall e (or_introl eq_refl) Hk) as [[x Hx] [y Hy]].
      rewrite (count_leak _ _ _ _ x y) by assumption.
      rewrite IH by (intros; apply Hall; [by right|assumption]).
      rewrite !total_cons_leak by assumption.
      unfold field_value. rewrite Hx, Hy. f_equal. f_equal; lia.
    + rewrite count_other by assumption.
      rewrite IH by (intros; apply Hall; [by right|assumption]).
      by rewrite !total_cons_other.
Qed.

(** The loop raises as soon as it meets a lacking entry, and an exception
    raised earlier is not lost. *)
Lemma lacking_raises e :
  lacking e ->
  raises (leaked "leakedbytes" e) \/
  (returns (leaked "leakedbytes" e) /\ raises (leaked "leakedblocks" e)).
Proof.
  intros [_ Hw]. unfold leaked.
  destruct (ValgrindError.what e) as [w|]; [|left; eauto].
  destruct (ValgrindWhat.fields w !! "leakedbytes") as [v|] eqn:Hb; [|left; eauto].
  destruct Hw as [Hw|Hw]; [discriminate|]. rewrite Hw.
  destruct (py_int 10 v); [right|left]; eauto.
Qed.

Lemma count_lacking es : forall a b e,
  In e es -> lacking e -> raises (count es a b).
Proof.
  induction es as [|e' es IH]; intros a b e Hin Hl; [destruct Hin|].
  destruct Hin as [->|Hin].
  - destruct (lacking_raises e Hl) as [[x Hx]|[[x Hx] [y Hy]]].
    + rewrite (count_raise_bytes _ _ _ _ x); [eauto|apply Hl|done].
    + rewrite (count_raise_blocks _ _ _ _ x y); [eauto|apply Hl|done|done].
  - simpl. destruct (is_leak (ValgrindError.kind e')); [|by eapply IH].
    destruct (leaked "leakedbytes" e'); simpl; [|eauto].
    destruct (leaked "leakedblocks" e'); simpl; [|eauto].
    by eapply IH.
Qed.

(** The scan of [pre ++ e :: post] gets to [e] with the counters of [pre]. *)
Lemma count_app pre : forall post a b a' b',
  count pre a b = Ok (a', b') ->
  count (pre ++ post) a b = count post a' b'.
Proof.
  induction pre as [|e pre IH]; intros post a b a' b' H.
  - simpl in *. by inversion H.
  - simpl in *. destruct (is_leak (ValgrindError.kind e)); [|by apply IH].
    destruct (leaked "leakedbytes" e); simpl in *; [|discriminate].
    destruct (leaked "leakedblocks" e); simpl in *; [|discriminate].
    by apply IH.
Qed.

(** [run], case by case on what the process returns and leaves behind. *)
Lemma run_cases process_run args timeout w :
  valgrind.run process_run args timeout w =
  match process_run (valgrind.command args) timeout w with
  | (Raise e, w1) => (Raise e, w1)
  | (Ok rt, w1) =>
      match files w1 !! valgrind.VALGRIND_XML_FILE with
      | None => (Ok (mk rt None), w1)
      | Some Directory => (Raise IsADirectoryError, w1)
      | Some (File (Text _)) => (Raise ParseError, w1)
      | Some (File (Document root)) =>
          match valgrind.load_errors (Element.children root) [] with
          | Raise e => (Raise e, w1)
          | Ok errors =>
              (Ok (mk rt (Some errors)),
               set_files (delete valgrind.VALGRIND_XML_FILE) w1)
          end
      end
  end.
Proof.
  unfold valgrind.run, mbind, M_bind.
  destruct (process_run _ _ _) as [[rt|e] w1]; [|reflexivity].
  unfold os.exists_.
  destruct (files w1 !! valgrind.VALGRIND_XML_FILE) as [[c|]|] eqn:Hf.
  - rewrite bool_decide_eq_true_2 by eauto.
    unfold parse_getroot. rewrite Hf. destruct c as [root|data]; [|reflexivity].
    unfold lift. destruct (valgrind.load_errors _ _); [|reflexivity].
    unfold os.remove. rewrite Hf. reflexivity.
  - rewrite bool_decide_eq_true_2 by eauto.
    unfold parse_getroot. rewrite Hf. reflexivity.
  - rewrite bool_decide_eq_false_2 by (intros [? ?]; discriminate).
    reflexivity.
Qed.

(** What [ValgrindError.load] returns once the three mandatory children
    are there and their numbers read. *)
Lemma load_fields element u t k unique tid :
  Element.find element "unique" = Some u ->
  py_int 16 (Element.text u) = Ok unique ->
  Element.find element "tid" = Some t ->
  py_int 10 (Element.text t) = Ok tid ->
  Element.find element "kind" = Some k ->
  ValgrindError.load element =
  Ok (ValgrindError.mk unique tid (Element.text k)
        (ValgrindWhat.load
           (Element.or_ (Element.find element "what")
                        (Element.find element "xwhat")))).
Proof.
  intros Hu Hun Ht Htn Hk. unfold ValgrindError.load.
  rewrite Hu, Ht, Hk. simpl. unfold mbind, res_mbind. rewrite Hun. simpl.
  rewrite Htn. reflexivity.
Qed.

(** A [what] element without children counts as false, so [or] passes
    over it to whatever [find("xwhat")] gives. *)
Lemma or_childless w x :
  Element.children w = [] -> Element.or_ (Some w) x = x.
Proof. intros H. unfold Element.or_, Element.truth. by rewrite H. Qed.

Lemma or_absent x : Element.or_ None x = x.
Proof. reflexivity. Qed.

Lemma last_text_snoc name children c :
  last_text name (children ++ [c]) =
  if String.eqb (Element.tag c) name then Some (Element.text c)
  else last_text name children.
Proof.
  unfold last_text. rewrite List.filter_app. simpl.
  destruct (String.eqb (Element.tag c) name).
  - by rewrite last_snoc.
  - by rewrite app_nil_r.
Qed.

(** The loop over the children of an [xwhat] element keeps, for the text
    and for every field, the last child that set it. *)
Lemma fold_visit children :
  exists fields,
    fold_left ValgrindWhat.visit children (Some "", ∅)
      = (xwhat_text children, fields) /\
    forall name, fields !! name = xwhat_field name children.
Proof.
  induction children as [|c children IH] using rev_ind.
  - exists ∅. split; [reflexivity|]. intros name. unfold xwhat_field.
    rewrite lookup_empty. by destruct (String.eqb name "tag").
  - destruct IH as (fields & Hfold & Hfields).
    rewrite fold_left_app, Hfold. simpl. unfold xwhat_text, xwhat_field.
    destruct (String.eqb (Element.tag c) "tag") eqn:Htag.
    + exists fields. split.
      * by rewrite last_text_snoc, Htag.
      * intros name. rewrite Hfields. unfold xwhat_field.
        destruct (String.eqb name "tag") eqn:Hn; [done|].
        rewrite last_text_snoc. apply String.eqb_eq in Htag. rewrite Htag.
        rewrite String.eqb_sym, Hn. done.
    + exists (<[Element.tag c := Element.text c]> fields). split.
      * by rewrite last_text_snoc, Htag.
      * intros name. rewrite last_text_snoc.
        destruct (String.eqb (Element.tag c) name) eqn:Hc.
        -- apply String.eqb_eq in Hc. subst name. rewrite Htag.
           apply lookup_insert_eq.
        -- rewrite lookup_insert_ne by (by apply String.eqb_neq).
           apply Hfields.
Qed.

(** An element that is not a [what] is read as a structured node. *)
Lemma load_xwhat element :
  Element.tag element <> "what" ->
  exists w,
    ValgrindWhat.load (Some element) = Some w /\
    ValgrindWhat.text w = xwhat_text (Element.children element) /\
    forall name,
      ValgrindWhat.fields w !! name = xwhat_field name (Element.children element).
Proof.
  intros Htag. unfold ValgrindWhat.load.
  apply String.eqb_neq in Htag. rewrite Htag.
  destruct (fold_visit (Element.children element)) as (fields & -> & Hfields).
  by eexists.
Qed.

(** A [what] element, handed to [ValgrindWhat.load], is read as plain text. *)
Lemma load_what element :
  Element.tag element = "what" ->
  ValgrindWhat.load (Some element) =
  Some (ValgrindWhat.mk (Element.text element) ∅).
Proof. intros Htag. unfold ValgrindWhat.load. by rewrite Htag. Qed.
End valgrind_facts.

Module valgrind_claims.
Import ValgrindReport valgrind_spec valgrind_facts.



(** C9. On a report whose error list is null, [memory_lost] raises (a
    [TypeError]) and does not return (0, 0); whenever [memory_lost] returns,
    the error list is not null; and a null list is what [run] hands back
    when the process left no report file. *)
Theorem memory_lost_null_raises (rt : Runtime) :
  memory_lost (mk rt None) = Raise TypeError /\
  memory_lost (mk rt None) <> Ok (0, 0) /\
  (forall r, returns (memory_lost r) -> errors r <> None) /\
  (forall process_run args timeout w w',
     process_run (valgrind.command args) timeout w = (Ok rt, w') ->
     files w' !! valgrind.VALGRIND_XML_FILE = None ->
     exists report,
       valgrind.run process_run args timeout w = (Ok report, w') /\
       memory_lost report = Raise TypeError).
Proof.
  split; [reflexivity|]. split; [discriminate|]. split.
  - intros r [v Hv] Hnull. unfold memory_lost in Hv. rewrite Hnull in Hv.
    discriminate.
  - intros process_run args timeout w w' Hrun Habs.
    exists (mk rt None). split; [|reflexivity].
    unfold valgrind.run, mbind, M_bind. rewrite Hrun.
    unfold os.exists_. rewrite Habs.
    rewrite bool_decide_eq_false_2 by (intros [? ?]; discriminate).
    reflexivity.
Qed.

Lemma memory_lost_null_raises_witness :
  exists report,
    valgrind.run samples.idle [] 1%Q samples.empty_world
      = (Ok report, samples.empty_world) /\
    memory_lost report = Raise TypeError.
Proof.
  destruct (memory_lost_null_raises samples.quiet) as (_ & _ & _ & H).
  apply (H samples.idle [] 1%Q samples.empty_world samples.empty_world).
  - reflexivity.
  - vm_compute. reflexivity.
Defined.

(** C2. When the process has finished and left no report file, [run]
    returns the report made of the captured [Runtime] and a null error
    list, leaves the world as the process left it, and does not raise. *)
Theorem run_absent_report process_run args timeout w rt w' :
  process_run (valgrind.command args) timeout w = (Ok rt, w') ->
  files w' !! valgrind.VALGRIND_XML_FILE = None ->
  valgrind.run process_run args timeout w = (Ok (mk rt None), w') /\
  ~ raises (valgrind.run process_run args timeout w).1.
Proof.
  intros Hrun Habs. rewrite run_cases, Hrun, Habs. split; [reflexivity|].
  intros Hr. apply (raises_not_returns _ Hr). simpl. eauto.
Qed.

Lemma run_absent_report_witness :
  valgrind.run samples.idle ["./program"] 1%Q samples.empty_world
    = (Ok (mk samples.quiet None), samples.empty_world) /\
  ~ raises (valgrind.run samples.idle ["./program"] 1%Q samples.empty_world).1.
Proof.
  apply (run_absent_report samples.idle ["./program"] 1%Q samples.empty_world
           samples.quiet samples.empty_world).
  - reflexivity.
  - vm_compute. reflexivity.
Defined.

(** C3, at the element where the code leaves the claim: an error element
    whose [what] child holds plain text, and which has no [xwhat], is loaded
    with its unique id, thread id and kind, but with no explanation at all:
    the childless [what] element is false for [or], so the text is dropped. *)
Theorem load_passes_over_plain_what element w e :
  Element.find element "what" = Some w ->
  Element.children w = [] ->
  Element.find element "xwhat" = None ->
  ValgrindError.load element = Ok e ->
  ValgrindError.what e = None /\
  ValgrindError.what e <> ValgrindWhat.load (Some w).
Proof.
  intros Hw Hc Hx. unfold ValgrindError.load. rewrite Hw, Hx, or_childless by done.
  unfold mbind, res_mbind.
  destruct (Element.text_of _); simpl; [|discriminate].
  destruct (py_int 16 _); simpl; [|discriminate].
  destruct (Element.text_of _); simpl; [|discriminate].
  destruct (py_int 10 _); simpl; [|discriminate].
  destruct (Element.text_of _); simpl; [|discriminate].
  intros [= <-]. simpl. split; [reflexivity|].
  destruct (String.eqb _ _); [discriminate|].
  by destruct (fold_left _ _ _).
Qed.

Lemma load_passes_over_plain_what_witness :
  ValgrindError.load samples.read_element = Ok samples.read_error /\
  ValgrindError.what samples.read_error = None /\
  ValgrindError.what samples.read_error <>
    ValgrindWhat.load (Some (mkElement "what" (Some "Invalid read of size 4") [])).
Proof.
  split; [vm_compute; reflexivity|].
  apply (load_passes_over_plain_what samples.read_element
           (mkElement "what" (Some "Invalid read of size 4") [])
           samples.read_error); vm_compute; reflexivity.
Defined.

(** C4, as the code has it: when the report file exists after the process
    and every error element in it loads, [run] returns the parsed report
    and on return the file is gone, all other paths being as the process
    left them. *)
Theorem run_removes_parsed_report process_run args timeout w rt w1 root errors :
  process_run (valgrind.command args) timeout w = (Ok rt, w1) ->
  files w1 !! valgrind.VALGRIND_XML_FILE = Some (File (Document root)) ->
  valgrind.load_errors (Element.children root) [] = Ok errors ->
  exists w2,
    valgrind.run process_run args timeout w = (Ok (mk rt (Some errors)), w2) /\
    files w2 !! valgrind.VALGRIND_XML_FILE = None /\
    (forall path, path <> valgrind.VALGRIND_XML_FILE ->
       files w2 !! path = files w1 !! path) /\
    journal w2 = journal w1 /\ clock w2 = clock w1.
Proof.
  intros Hrun Hfile Hload. rewrite run_cases, Hrun, Hfile, Hload.
  eexists. split; [reflexivity|]. simpl. split; [apply lookup_delete_eq|].
  split; [|split; reflexivity]. intros path Hne. by apply lookup_delete_ne.
Qed.

Lemma run_removes_parsed_report_witness :
  exists w2,
    valgrind.run samples.idle [] 1%Q
      (samples.world_of (Document samples.report_document))
      = (Ok samples.sample_report, w2) /\
    files w2 !! valgrind.VALGRIND_XML_FILE = None /\
    (forall path, path <> valgrind.VALGRIND_XML_FILE ->
       files w2 !! path =
       files (samples.world_of (Document samples.report_document)) !! path) /\
    journal w2 = journal (samples.world_of (Document samples.report_document)) /\
    clock w2 = clock (samples.world_of (Document samples.report_document)).
Proof.
  apply (run_removes_parsed_report samples.idle [] 1%Q
           (samples.world_of (Document samples.report_document))
           samples.quiet
           (samples.world_of (Document samples.report_document))
           samples.report_document
           [samples.leak_error; samples.read_error]).
  - reflexivity.
  - vm_compute. reflexivity.
  - vm_compute. reflexivity.
Defined.

(** C4 as stated fails: a report file whose error element has no [unique]
    child, or that holds no XML document (a report cut short), makes the
    parse raise, and the file is still there afterwards. *)
Lemma run_keeps_unparsed_report :
  let torn := samples.world_of (Document samples.torn_document) in
  let cut := samples.world_of (Text "<valgrindoutput><error><unique>0x") in
  (is_Some (files torn !! valgrind.VALGRIND_XML_FILE) /\
   valgrind.run samples.idle [] 1%Q torn = (Raise (AttributeError "text"), torn)) /\
  (is_Some (files cut !! valgrind.VALGRIND_XML_FILE) /\
   valgrind.run samples.idle [] 1%Q cut = (Raise ParseError, cut)).
Proof.
  simpl. split; (split; [vm_compute; eauto|]); rewrite run_cases; vm_compute; reflexivity.
Qed.

(** C10, as the code has it: a report with a leak entry whose explanation
    is absent or lacks [leakedbytes] or [leakedblocks] makes [memory_lost]
    raise, never return.  When the scan reaches such an entry the exception
    is: an [AttributeError] if the explanation is absent; a [KeyError] for
    [leakedbytes] if the explanation is there without that field; if
    [leakedbytes] is there but is no integer, the [TypeError] or
    [ValueError] of [int], whether or not [leakedblocks] is there; and a
    [KeyError] for [leakedblocks] if [leakedbytes] is an integer and
    [leakedblocks] is missing.  An explanation loaded from a [what] element
    has an empty field map and so gives the [KeyError] for [leakedbytes]. *)
Theorem memory_lost_lacking_raises r es e :
  errors r = Some es ->
  In e es ->
  lacking e ->
  raises (memory_lost r) /\
  (forall pre post : list ValgrindError.t,
     es = pre ++ e :: post ->
     returns (count pre 0 0) ->
     match ValgrindError.what e with
     | None => memory_lost r = Raise (AttributeError "fields")
     | Some w =>
         match ValgrindWhat.fields w !! "leakedbytes" with
         | None => memory_lost r = Raise (KeyError "leakedbytes")
         | Some value =>
             match py_int 10 value with
             | Raise x =>
                 memory_lost r = Raise x /\ (x = TypeError \/ x = ValueError)
             | Ok _ => memory_lost r = Raise (KeyError "leakedblocks")
             end
         end
     end) /\
  (forall element,
     Element.tag element = "what" ->
     ValgrindError.what e = ValgrindWhat.load (Some element) ->
     leaked "leakedbytes" e = Raise (KeyError "leakedbytes")).
Proof.
  intros Hes Hin Hl. unfold memory_lost. rewrite Hes. split; [|split].
  - by eapply count_lacking.
  - intros pre post -> [[a b] Hpre]. rewrite (count_app _ _ _ _ _ _ Hpre).
    destruct Hl as [Hk Hw].
    destruct (ValgrindError.what e) as [w|] eqn:Hwhat.
    + destruct (ValgrindWhat.fields w !! "leakedbytes") as [value|] eqn:Hb.
      * destruct (py_int 10 value) as [n|x] eqn:Hint.
        -- destruct Hw as [Hb'|Hb']; [congruence|].
           rewrite (count_raise_blocks _ _ _ _ n (KeyError "leakedblocks")); [done|done| |].
           ++ unfold leaked. by rewrite Hwhat, Hb.
           ++ unfold leaked. by rewrite Hwhat, Hb'.
        -- split.
           ++ rewrite (count_raise_bytes _ _ _ _ x); [done|done|].
              unfold leaked. by rewrite Hwhat, Hb.
           ++ by eapply py_int_raises.
      * rewrite (count_raise_bytes _ _ _ _ (KeyError "leakedbytes")); [done|done|].
        unfold leaked. by rewrite Hwhat, Hb.
    + rewrite (count_raise_bytes _ _ _ _ (AttributeError "fields")); [done|done|].
      unfold leaked. by rewrite Hwhat.
  - intros element Htag Hwhat. unfold leaked. rewrite Hwhat. simpl. by rewrite Htag.
Qed.

Lemma memory_lost_lacking_raises_witness :
  (raises (memory_lost (mk samples.quiet (Some [samples.read_error; samples.bare_leak]))) /\
   memory_lost (mk samples.quiet (Some [samples.read_error; samples.bare_leak]))
     = Raise (AttributeError "fields")) /\
  memory_lost (mk samples.quiet (Some [samples.leak_error; coverage_spec.half_leak]))
    = Raise (KeyError "leakedblocks") /\
  memory_lost (mk samples.quiet (Some [coverage_spec.garbled_leak]))
    = Raise ValueError /\
  memory_lost (mk samples.quiet (Some [coverage_spec.hollow_leak]))
    = Raise TypeError.
Proof.
  split; [|split; [|split]].
  - destruct (memory_lost_lacking_raises
                (mk samples.quiet (Some [samples.read_error; samples.bare_leak]))
                [samples.read_error; samples.bare_leak] samples.bare_leak)
      as (H1 & H2 & _).
    + reflexivity.
    + right. left. reflexivity.
    + split; [vm_compute; reflexivity | exact I].
    + split; [exact H1|].
      apply (H2 [samples.read_error] []); [reflexivity | vm_compute; eauto].
  - destruct (memory_lost_lacking_raises
                (mk samples.quiet (Some [samples.leak_error; coverage_spec.half_leak]))
                [samples.leak_error; coverage_spec.half_leak] coverage_spec.half_leak)
      as (_ & H2 & _).
    + reflexivity.
    + right. left. reflexivity.
    + split; [vm_compute; reflexivity | right; vm_compute; reflexivity].
    + apply (H2 [samples.leak_error] []); [reflexivity | vm_compute; eauto].
  - destruct (memory_lost_lacking_raises
                (mk samples.quiet (Some [coverage_spec.garbled_leak]))
                [coverage_spec.garbled_leak] coverage_spec.garbled_leak)
      as (_ & H2 & _).
    + reflexivity.
    + left. reflexivity.
    + split; [vm_compute; reflexivity | right; vm_compute; reflexivity].
    + apply (H2 [] []); [reflexivity | vm_compute; eauto].
  - destruct (memory_lost_lacking_raises
                (mk samples.quiet (Some [coverage_spec.hollow_leak]))
                [coverage_spec.hollow_leak] coverage_spec.hollow_leak)
      as (_ & H2 & _).
    + reflexivity.
    + left. reflexivity.
    + split; [vm_compute; reflexivity | right; vm_compute; reflexivity].
    + apply (H2 [] []); [reflexivity | vm_compute; eauto].
Defined.

(** C10 as stated fails: for a leak entry without explanation the
    exception is an [AttributeError], which is no lookup error. *)
Lemma memory_lost_bare_leak_attribute_error :
  lacking samples.bare_leak /\
  memory_lost (mk samples.quiet (Some [samples.bare_leak]))
    = Raise (AttributeError "fields") /\
  is_LookupError (AttributeError "fields") = false.
Proof. split; [split; [vm_compute; reflexivity | exact I]|]. split; reflexivity. Qed.
End valgrind_claims.

(** ** Ordered dictionaries *)

Module dict_facts.
Section dict_facts.
Context {V : Type}.
Implicit Types (d pairs : list (string * V)) (key k : string) (value v : V).

Lemma setitem_fresh d key value :
  ~ In key (keys d) -> setitem d key value = d ++ [(key, value)].
Proof.
  induction d as [|[k v] d IH]; intros Hnot; [reflexivity|]. simpl in *.
  destruct (String.eqb k key) eqn:Hk.
  - apply String.eqb_eq in Hk. tauto.
  - rewrite IH; [reflexivity | tauto].
Qed.

Lemma keys_setitem_in d key value :
  In key (keys d) -> keys (setitem d key value) = keys d.
Proof.
  induction d as [|[k v] d IH]; intros Hin; [destruct Hin|]. simpl in *.
  destruct (String.eqb k key) eqn:Hk; [reflexivity|].
  apply String.eqb_neq in Hk. simpl. f_equal. apply IH. tauto.
Qed.

Lemma in_keys_setitem d key value k :
  In k (keys (setitem d key value)) <-> k = key \/ In k (keys d).
Proof.
  destruct (in_dec string_dec key (keys d)) as [Hin|Hin].
  - rewrite keys_setitem_in by assumption.
    split; [tauto|]. intros [->|?]; assumption.
  - rewrite setitem_fresh by assumption. unfold keys.
    rewrite map_app, in_app_iff. simpl.
    split; [intros [?|[?|[]]]|intros [?|?]]; auto.
Qed.

Lemma NoDup_keys_setitem d key value :
  NoDup (keys d) -> NoDup (keys (setitem d key value)).
Proof.
  intros Hd. destruct (in_dec string_dec key (keys d)) as [Hin|Hin].
  - by rewrite keys_setitem_in.
  - rewrite setitem_fresh by assumption. unfold keys. rewrite map_app.
    apply (proj2 (NoDup_app _ _)). split; [assumption|]. split.
    + intros x Hx Hx'. apply list_elem_of_In in Hx, Hx'.
      destruct Hx' as [<-|[]]. tauto.
    + apply NoDup_singleton.
Qed.

Lemma in_keys_update pairs : forall d k,
  In k (keys (update d pairs)) <-> In k (keys d) \/ In k (keys pairs).
Proof.
  induction pairs as [|[k' v'] pairs IH]; intros d k; simpl; [tauto|].
  unfold update in *. simpl. rewrite IH, in_keys_setitem.
  split; [intros [[?|?]|?]|intros [?|[?|?]]]; auto.
Qed.

Lemma NoDup_keys_update pairs : forall d,
  NoDup (keys d) -> NoDup (keys (update d pairs)).
Proof.
  induction pairs as [|[k' v'] pairs IH]; intros d Hd; [assumption|].
  unfold update in *. simpl. apply IH. by apply NoDup_keys_setitem.
Qed.

(** Pairs with fresh, distinct keys are added at the end, in their order. *)
Lemma update_fresh pairs : forall d,
  NoDup (keys d ++ keys pairs) -> update d pairs = d ++ pairs.
Proof.
  induction pairs as [|[k' v'] pairs IH]; intros d Hnd.
  - by rewrite app_nil_r.
  - unfold update in *. simpl in *.
    assert (~ In k' (keys d)) as Hfresh.
    { intros Hin. apply (proj1 (NoDup_app _ _)) in Hnd as (_ & Hdis & _).
      apply (Hdis k'); [by apply list_elem_of_In | by left]. }
    rewrite setitem_fresh by assumption.
    rewrite IH.
    + by rewrite <- app_assoc.
    + unfold keys in *. rewrite map_app, <- app_assoc. exact Hnd.
Qed.

Lemma dict_of_distinct pairs :
  NoDup (keys pairs) -> dict_of pairs = pairs.
Proof. intros Hnd. apply (update_fresh pairs []). exact Hnd. Qed.

Lemma getitem_in d : forall k v,
  NoDup (keys d) -> In (k, v) d -> getitem d k = Some v.
Proof.
  induction d as [|[k' v'] d IH]; intros k v Hnd Hin; [destruct Hin|].
  simpl in *. apply (proj1 (NoDup_cons _ _)) in Hnd as [Hk' Hnd].
  destruct Hin as [[= -> ->]|Hin].
  - by rewrite String.eqb_refl.
  - destruct (String.eqb k' k) eqn:Hk; [|by apply IH].
    apply String.eqb_eq in Hk. subst k'. exfalso. apply Hk'.
    apply list_elem_of_In. apply (in_map fst) in Hin. exact Hin.
Qed.

Lemma pop_getitem d : forall k v,
  getitem d k = Some v -> exists d', pop d k = Ok (v, d').
Proof.
  induction d as [|[k' v'] d IH]; intros k v Hget; [discriminate|].
  simpl in *. destruct (String.eqb k' k).
  - injection Hget as ->. eauto.
  - destruct (IH _ _ Hget) as [d' ->]. eauto.
Qed.
End dict_facts.
End dict_facts.

(** ** The assignment runner *)

Module grade_facts.
Import grade dict_facts.
Section grade_facts.
Context {Result : Type} (joinpath : string -> string -> string).
Implicit Types (todo : list (GradingProblem Result)) (reports : AssignmentReport Result).

(** Every recorded call is the grader's own call, made in the world the
    loop was in. *)
Lemma calls_called path options todo : forall w,
  Forall (called Result joinpath path options)
    (calls Result joinpath todo path options w).
Proof.
  induction todo as [|p todo IH]; intros w; simpl; [constructor|].
  destruct (grader_run Result p _ _ _) as [r w1] eqn:Hrun.
  constructor; [exact Hrun|]. destruct r; [apply IH | constructor].
Qed.

Lemma calls_chained path options todo : forall w,
  chained Result w (calls Result joinpath todo path options w).
Proof.
  induction todo as [|p todo IH]; intros w; simpl; [exact I|].
  destruct (grader_run Result p _ _ _) as [[r|x] w1]; simpl.
  - split; [reflexivity | apply IH].
  - split; [reflexivity | exact I].
Qed.

(** The calls are those of the problems, in order, up to the one that
    raised. *)
Lemma calls_problems path options todo : forall w,
  exists post,
    todo = List.map (problem Result) (calls Result joinpath todo path options w) ++ post /\
    (failure Result (calls Result joinpath todo path options w) = None -> post = []).
Proof.
  induction todo as [|p todo IH]; intros w; simpl.
  - by exists [].
  - destruct (grader_run Result p _ _ _) as [[r|x] w1]; simpl.
    + destruct (IH w1) as (post & Heq & Hnone). exists post.
      split; [by f_equal | exact Hnone].
    + exists todo. split; [reflexivity | discriminate].
Qed.

Lemma calls_returned (cs : list (call Result)) :
  failure Result cs = None ->
  Forall2 (fun c r => outcome Result c = Ok r) cs (results Result cs).
Proof.
  induction cs as [|c cs IH]; simpl; intros Hnone; [constructor|].
  destruct (outcome Result c) as [r|x] eqn:Hc; [|discriminate].
  constructor; [exact Hc | by apply IH].
Qed.

(** The call that raised is the last one, and the calls before it
    returned. *)
Lemma calls_failure path options todo x : forall w,
  failure Result (calls Result joinpath todo path options w) = Some x ->
  exists pre c,
    calls Result joinpath todo path options w = pre ++ [c] /\
    outcome Result c = Raise x /\
    Forall (fun c' => returns (outcome Result c')) pre /\
    final Result w (calls Result joinpath todo path options w) = after Result c.
Proof.
  induction todo as [|p todo IH]; intros w; simpl; [discriminate|].
  destruct (grader_run Result p _ _ _) as [[r|e] w1]; simpl.
  - intros Hfail. destruct (IH w1 Hfail) as (pre & c & Hcs & Hc & Hpre & Hfin).
    eexists (_ :: pre), c. rewrite Hcs. simpl.
    split; [reflexivity|]. split; [exact Hc|]. split.
    + constructor; [by eexists | exact Hpre].
    + rewrite <- Hcs. exact Hfin.
  - intros [= ->]. eexists [], _. simpl.
    split; [reflexivity|]. split; [reflexivity|]. split; [constructor | reflexivity].
Qed.

(** The loop, by its calls: it raises what the call that raised did, in
    the world that call left; when every call returned it has put each
    grader's results under the problem's short name, in order. *)
Lemma run_problems_calls path options todo : forall reports w,
  run_problems Result joinpath todo path options reports w =
  match failure Result (calls Result joinpath todo path options w) with
  | Some x => (Raise x, final Result w (calls Result joinpath todo path options w))
  | None =>
      (Ok (update reports
             (combine (List.map (short Result) todo)
                (results Result (calls Result joinpath todo path options w)))),
       final Result w (calls Result joinpath todo path options w))
  end.
Proof.
  induction todo as [|p todo IH]; intros reports w; [reflexivity|].
  simpl. unfold mbind at 1, M_bind at 1, log_debug at 1.
  unfold mbind at 1, M_bind at 1. simpl.
  destruct (grader_run Result p _ _ _) as [[r|x] w1]; simpl; [|reflexivity].
  rewrite IH. by destruct (failure Result _).
Qed.

Section run_facts.
Variable round5 : Q -> string.

(** [run], by its calls. *)
Lemma run_calls assignment path options w :
  run Result joinpath round5 assignment path options w =
  let cs := calls Result joinpath (automated Result assignment) path options
              (started path w) in
  match failure Result cs with
  | Some x => (Raise x, final Result (started path w) cs)
  | None =>
      (Ok (dict_of (combine (List.map (short Result) (automated Result assignment))
                      (results Result cs))),
       finished round5 w (final Result (started path w) cs))
  end.
Proof.
  unfold run, mbind at 1, M_bind at 1, log_info at 1.
  unfold mbind at 1, M_bind at 1, default_timer at 1.
  unfold mbind at 1, M_bind at 1. simpl.
  rewrite run_problems_calls. unfold started, log_info. simpl.
  by destruct (failure Result _).
Qed.
End run_facts.

Lemma keys_combine (shorts : list string) : forall (rs : list (list Result)),
  length shorts = length rs -> keys (combine shorts rs) = shorts.
Proof.
  unfold keys.
  induction shorts as [|s shorts IH]; intros [|r rs] Hlen; simpl in *;
    try reflexivity; try discriminate.
  f_equal. apply IH. lia.
Qed.
End grade_facts.
End grade_facts.

Module grade_claims.
Import grade dict_facts grade_facts.

(** C5. In every run of [run] that returns, the [AssignmentReport] has as
    keys exactly the short names of the automated problems, each key once,
    and the results in it are those the graders returned in this run: each
    automated problem's grader was started once, in the world the grader
    before it left, on the submission and context [run] builds, and gave
    the results recorded.  With distinct short names the report is the
    sequence of (short name, that problem's results) in the assignment's
    problem order, so the keys come in assignment order and each maps to
    the results its own grader returned.  [run] returns exactly when every
    grader it started returned. *)
Theorem run_report_order {Result : Type} joinpath round5
    (assignment : GradingAssignment Result) path options w :
  let todo := automated Result assignment in
  let shorts := List.map (short Result) todo in
  let cs := calls Result joinpath todo path options (started path w) in
  Forall (called Result joinpath path options) cs /\
  chained Result (started path w) cs /\
  (failure Result cs = None <->
   returns (run Result joinpath round5 assignment path options w).1) /\
  forall report w',
    run Result joinpath round5 assignment path options w = (Ok report, w') ->
    List.map (problem Result) cs = todo /\
    Forall2 (fun c r => outcome Result c = Ok r) cs (results Result cs) /\
    w' = finished round5 w (final Result (started path w) cs) /\
    report = dict_of (combine shorts (results Result cs)) /\
    (forall k, In k (keys report) <-> In k shorts) /\
    NoDup (keys report) /\
    (NoDup shorts ->
     report = combine shorts (results Result cs) /\
     keys report = shorts /\
     forall c r, In c cs -> outcome Result c = Ok r ->
                 getitem report (short Result (problem Result c)) = Some r).
Proof.
  intros todo shorts cs.
  split; [apply calls_called|]. split; [apply calls_chained|].
  pose proof (run_calls joinpath round5 assignment path options w) as Hrun.
  simpl in Hrun. fold todo cs shorts in Hrun.
  split.
  { rewrite Hrun. destruct (failure Result cs); simpl; split; intros H;
      try discriminate; try reflexivity; [by destruct H | by eexists]. }
  intros report w' Hok. rewrite Hok in Hrun.
  destruct (failure Result cs) eqn:Hfail; [discriminate|].
  injection Hrun as Hreport Hworld.
  destruct (calls_problems joinpath path options todo (started path w))
    as (post & Htodo & Hpost).
  fold cs in Htodo, Hpost. rewrite (Hpost Hfail), app_nil_r in Htodo.
  pose proof (calls_returned cs Hfail) as Hall.
  assert (length shorts = length (results Result cs)) as Hlen.
  { unfold shorts. rewrite length_map, Htodo, length_map.
    by eapply Forall2_length. }
  pose proof (keys_combine shorts _ Hlen) as Hkeys.
  split; [by symmetry|]. split; [exact Hall|]. split; [exact Hworld|].
  split; [exact Hreport|].
  split.
  { intros k. rewrite Hreport. unfold dict_of.
    rewrite in_keys_update, Hkeys. simpl. tauto. }
  split.
  { rewrite Hreport. apply NoDup_keys_update. constructor. }
  intros Hnd.
  assert (report = combine shorts (results Result cs)) as Heq.
  { rewrite Hreport. apply dict_of_distinct. by rewrite Hkeys. }
  split; [exact Heq|]. split; [by rewrite Heq|].
  intros c r Hin Hc. rewrite Heq. apply getitem_in; [by rewrite Hkeys|].
  unfold shorts. rewrite Htodo, map_map.
  clear -Hin Hc Hall. induction Hall as [|c' r' cs' rs' Hc' Hall IH].
  - destruct Hin.
  - simpl. destruct Hin as [->|Hin].
    + left. congruence.
    + right. by apply IH.
Qed.

Lemma run_report_order_witness :
  (exists report w',
     run string grade_samples.slash grade_samples.seconds grade_samples.hw1
       "submissions/alice" [] samples.empty_world = (Ok report, w') /\
     report = [("linked_list", ["test_push"; "test_pop"]); ("heap", ["test_heapify"])] /\
     keys report = ["linked_list"; "heap"]) /\
  (exists report w',
     run string grade_samples.slash grade_samples.seconds coverage_spec.staged
       "submissions/alice" [] samples.empty_world = (Ok report, w') /\
     report = [("build", ["test_build"]); ("check", ["test_check"])] /\
     keys report = ["build"; "check"]).
Proof.
  split.
  - destruct (run_report_order grade_samples.slash grade_samples.seconds
                grade_samples.hw1 "submissions/alice" [] samples.empty_world)
      as (_ & _ & Hret & Hrun).
    destruct (proj1 Hret eq_refl) as [report Hreturns].
    destruct (run _ _ _ _ _ _ _) as [r w'] eqn:Hok. simpl in Hreturns. subst r.
    exists report, w'. split; [reflexivity|].
    destruct (Hrun _ _ eq_refl) as (_ & _ & _ & _ & _ & _ & Hnd).
    destruct Hnd as (Hreport & Hkeys & _); [|by split].
    apply (bool_decide_unpack (NoDup ["linked_list"; "heap"])).
    vm_compute. exact I.
  - destruct (run_report_order grade_samples.slash grade_samples.seconds
                coverage_spec.staged "submissions/alice" [] samples.empty_world)
      as (_ & _ & Hret & Hrun).
    destruct (proj1 Hret eq_refl) as [report Hreturns].
    destruct (run _ _ _ _ _ _ _) as [r w'] eqn:Hok. simpl in Hreturns. subst r.
    exists report, w'. split; [reflexivity|].
    destruct (Hrun _ _ eq_refl) as (_ & _ & _ & _ & _ & _ & Hnd).
    destruct Hnd as (Hreport & Hkeys & _); [|by split].
    apply (bool_decide_unpack (NoDup ["build"; "check"])).
    vm_compute. exact I.
Defined.
End grade_claims.

(** ** Literal structures through [json] *)

Module json_facts.
Import json.
Local Open Scope string_scope.
Local Arguments String.append !_ _ / : simpl nomatch.

Lemma append_assoc (a b c : string) : (a ++ b) ++ c = a ++ (b ++ c).
Proof. induction a as [|x a IH]; [reflexivity|]. cbn. f_equal. exact IH. Qed.

Lemma append_empty (a : string) : a ++ "" = a.
Proof. induction a as [|x a IH]; [reflexivity|]. cbn. f_equal. exact IH. Qed.

Lemma append_cons c (a b : string) : String c a ++ b = String c (a ++ b).
Proof. reflexivity. Qed.

Lemma length_append (a b : string) :
  String.length (a ++ b) = (String.length a + String.length b)%nat.
Proof. induction a as [|x a IH]; [reflexivity|]. cbn. f_equal. exact IH. Qed.

(** *** Strings *)

Lemma scanstring_char c rest :
  scanstring (encode_char c ++ rest) =
  match scanstring rest with
  | Some (text, after) => Some (String c text, after)
  | None => None
  end.
Proof.
  destruct c as [[] [] [] [] [] [] [] []]; reflexivity.
Qed.

Lemma scanstring_chars s rest :
  scanstring (encode_chars s ++ String quote rest) = Some (s, rest).
Proof.
  induction s as [|c s IH]; [reflexivity|].
  simpl encode_chars. rewrite append_assoc, scanstring_char, IH. reflexivity.
Qed.

Lemma encode_string_append s rest :
  encode_string s ++ rest = String quote (encode_chars s ++ String quote rest).
Proof.
  transitivity (String quote ((encode_chars s ++ String quote "") ++ rest));
    [reflexivity|].
  by rewrite append_assoc.
Qed.

(** *** Integers *)

Lemma boundary_no_digit rest :
  boundary rest = true -> read_digits rest = (Decimal.Nil, rest).
Proof.
  destruct rest as [|c rest]; [reflexivity|]. simpl. intros H.
  apply orb_true_iff in H as [H|H]; apply Ascii.eqb_eq in H; subst c; reflexivity.
Qed.

Lemma boundary_no_float rest :
  boundary rest = true -> float_follows rest = false.
Proof.
  destruct rest as [|c rest]; [reflexivity|]. simpl. intros H.
  apply orb_true_iff in H as [H|H]; apply Ascii.eqb_eq in H; subst c; reflexivity.
Qed.

Lemma read_digits_uint u rest :
  boundary rest = true ->
  read_digits (NilEmpty.string_of_uint u ++ rest) = (u, rest).
Proof.
  intros Hb. induction u; simpl; rewrite ?IHu; auto using boundary_no_digit.
Qed.

Lemma nzhead_no_zero u u' : Decimal.nzhead u <> Decimal.D0 u'.
Proof. induction u; simpl; congruence. Qed.

(** The decimal digits of a positive number do not start with zero. *)
Lemma to_uint_head p :
  match Pos.to_uint p with
  | Decimal.Nil | Decimal.D0 _ => False
  | _ => True
  end.
Proof.
  pose proof (DecimalPos.Unsigned.to_uint_nonnil p) as Hnil.
  pose proof (DecimalPos.Unsigned.to_uint_nonzero p) as Hzero.
  pose proof (DecimalPos.Unsigned.to_of (Pos.to_uint p)) as Hnorm.
  rewrite DecimalPos.Unsigned.of_to in Hnorm. simpl in Hnorm.
  destruct (Pos.to_uint p) as [|u| | | | | | | | |] eqn:Hu; try exact I; [congruence|].
  unfold Decimal.unorm in Hnorm.
  destruct (Decimal.nzhead (Decimal.D0 u)) eqn:Hh;
    try (by apply nzhead_no_zero in Hh); try discriminate.
  congruence.
Qed.

Lemma match_number_int n rest :
  boundary rest = true ->
  match_number (encode_int n ++ rest) = Some (n, rest).
Proof.
  intros Hb. unfold encode_int.
  destruct n as [|p|p]; simpl Z.to_int.
  - simpl. unfold match_number. simpl. by rewrite (boundary_no_float _ Hb).
  - pose proof (to_uint_head p) as Hhead.
    pose proof (DecimalPos.Unsigned.of_to p) as Hof.
    unfold NilZero.string_of_int, NilZero.string_of_uint.
    destruct (Pos.to_uint p) as [|u|u|u|u|u|u|u|u|u|u] eqn:Hu; try contradiction;
      simpl; unfold match_number; simpl;
      rewrite (read_digits_uint _ _ Hb), (boundary_no_float _ Hb);
      unfold Z.of_uint; rewrite Hof; reflexivity.
  - pose proof (to_uint_head p) as Hhead.
    pose proof (DecimalPos.Unsigned.of_to p) as Hof.
    unfold NilZero.string_of_int, NilZero.string_of_uint.
    destruct (Pos.to_uint p) as [|u|u|u|u|u|u|u|u|u|u] eqn:Hu; try contradiction;
      simpl; unfold match_number; simpl;
      rewrite (read_digits_uint _ _ Hb), (boundary_no_float _ Hb);
      unfold Z.of_uint; rewrite Hof; reflexivity.
Qed.

(** *** Whitespace and the first character of a value *)

Lemma skip_ws_head c s : is_ws c = false -> skip_ws (String c s) = String c s.
Proof. intros H. simpl. by rewrite H. Qed.

Lemma skip_ws_spaces n s : skip_ws (spaces n ++ s) = skip_ws s.
Proof. induction n as [|n IH]; [reflexivity|]. simpl. exact IH. Qed.

Lemma skip_ws_newline_indent level s :
  skip_ws (newline_indent level ++ s) = skip_ws s.
Proof. unfold newline_indent. simpl. apply skip_ws_spaces. Qed.

Lemma boundary_newline_indent level s : boundary (newline_indent level ++ s) = true.
Proof. reflexivity. Qed.

(** An encoded value starts with a character that is no whitespace and no
    closing bracket. *)
Lemma encode_head v level rest :
  exists c s,
    encode level v ++ rest = String c s /\
    is_ws c = false /\ Ascii.eqb c "]" = false.
Proof.
  destruct v as [|[]|n|s|[|x xs]|[|[k x] xs]]; simpl;
    try (eexists _, _; split; [reflexivity | split; reflexivity]).
  unfold encode_int. destruct n as [|p|p]; simpl;
    try (eexists _, _; split; [reflexivity | split; reflexivity]).
  pose proof (DecimalPos.Unsigned.to_uint_nonnil p) as Hnil.
  unfold NilZero.string_of_uint.
  destruct (Pos.to_uint p); try congruence; simpl;
    eexists _, _; (split; [reflexivity | split; reflexivity]).
Qed.

Lemma skip_ws_encode v level rest :
  skip_ws (encode level v ++ rest) = encode level v ++ rest.
Proof.
  destruct (encode_head v level rest) as (c & s & -> & Hws & _).
  by apply skip_ws_head.
Qed.

Lemma more_append {A} (enc : A -> string) lead close items rest :
  more enc lead close items ++ rest = more enc lead (close ++ rest) items.
Proof.
  induction items as [|x items IH]; [reflexivity|]. simpl.
  by rewrite !append_assoc, IH.
Qed.

Lemma boundary_more {A} (enc : A -> string) level level' close items :
  boundary (more enc (String "," (newline_indent level))
              (newline_indent level' ++ close) items) = true.
Proof. destruct items; reflexivity. Qed.

(** *** The two loops *)

Local Opaque newline_indent.

Lemma array_loop_items item level rest : forall items x fuel,
  (forall y r, In y (x :: items) -> boundary r = true ->
     item (encode (S level) y ++ r) = Some (y, r)) ->
  (length items < fuel)%nat ->
  array_loop item fuel
    (encode (S level) x ++
     more (encode (S level)) (String "," (newline_indent (S level)))
       (newline_indent level ++ String "]" rest) items)
  = Some (x :: items, rest).
Proof.
  induction items as [|y items IH]; intros x fuel Hitem Hfuel;
    (destruct fuel as [|fuel]; [simpl in Hfuel; lia|]).
  - simpl array_loop.
    rewrite Hitem by (by left || reflexivity).
    simpl more. rewrite skip_ws_newline_indent. reflexivity.
  - simpl array_loop.
    rewrite Hitem by (by left || reflexivity).
    simpl. rewrite skip_ws_newline_indent, skip_ws_encode.
    rewrite IH; [reflexivity | | simpl in Hfuel; lia].
    intros z r Hz Hr. apply Hitem; [by right | assumption].
Qed.

Lemma skip_ws_pair enc p rest :
  skip_ws (encode_pair enc p ++ rest) = encode_pair enc p ++ rest.
Proof. destruct p as [k x]. reflexivity. Qed.

(** One turn of the loop over the pairs of an object. *)
Lemma object_loop_pair item fuel enc k x tail :
  object_loop item (S fuel) (encode_pair enc (k, x) ++ tail) =
  match item (skip_ws (enc x ++ tail)) with
  | None => None
  | Some (value, after) =>
      match skip_ws after with
      | String c after =>
          if Ascii.eqb c "}" then Some ([(k, value)], after)
          else if Ascii.eqb c "," then
            match object_loop item fuel (skip_ws after) with
            | Some (pairs, after) => Some ((k, value) :: pairs, after)
            | None => None
            end
          else None
      | EmptyString => None
      end
  end.
Proof.
  unfold encode_pair. rewrite append_assoc, encode_string_append.
  generalize (enc x) as text. intros text.
  change (object_loop item (S fuel) (String quote ?s))
    with (match scanstring s with
          | None => None
          | Some (key, after) =>
              match skip_ws after with
              | String c after =>
                  if Ascii.eqb c ":" then
                    match item (skip_ws after) with
                    | None => None
                    | Some (value, after) =>
                        match skip_ws after with
                        | String c after =>
                            if Ascii.eqb c "}" then Some ([(key, value)], after)
                            else if Ascii.eqb c "," then
                              match object_loop item fuel (skip_ws after) with
                              | Some (pairs, after) =>
                                  Some ((key, value) :: pairs, after)
                              | None => None
                              end
                            else None
                        | EmptyString => None
                        end
                    end
                  else None
              | EmptyString => None
              end
          end).
  rewrite scanstring_chars. reflexivity.
Qed.

Lemma object_loop_items item level rest : forall items p fuel,
  (forall y r, In y (List.map snd (p :: items)) -> boundary r = true ->
     item (encode (S level) y ++ r) = Some (y, r)) ->
  (length items < fuel)%nat ->
  object_loop item fuel
    (encode_pair (encode (S level)) p ++
     more (encode_pair (encode (S level))) (String "," (newline_indent (S level)))
       (newline_indent level ++ String "}" rest) items)
  = Some (p :: items, rest).
Proof.
  induction items as [|q items IH]; intros [k x] fuel Hitem Hfuel;
    (destruct fuel as [|fuel]; [simpl in Hfuel; lia|]);
    rewrite object_loop_pair, skip_ws_encode.
  - rewrite Hitem by (by left || reflexivity).
    simpl more. rewrite skip_ws_newline_indent. reflexivity.
  - rewrite Hitem by (by left || apply boundary_more).
    cbn [more].
    set (tail := encode_pair _ q ++ more _ _ _ items).
    simpl. rewrite skip_ws_newline_indent. subst tail.
    rewrite skip_ws_pair.
    rewrite IH; [reflexivity | | simpl in Hfuel; lia].
    intros z r Hz Hr. apply Hitem; [by right | assumption].
Qed.

(** *** One value *)

Lemma scan_once_list fuel body c s :
  skip_ws body = String c s ->
  Ascii.eqb c "]" = false ->
  scan_once (S fuel) (String "[" body) =
  match array_loop (scan_once fuel) fuel (String c s) with
  | Some (values, after) => Some (LList values, after)
  | None => None
  end.
Proof. intros Hbody Hc. simpl. rewrite Hbody, Hc. reflexivity. Qed.

Lemma scan_once_dict fuel body s :
  skip_ws body = String quote s ->
  scan_once (S fuel) (String "{" body) =
  match object_loop (scan_once fuel) fuel (String quote s) with
  | Some (pairs, after) => Some (LDict (dict_of pairs), after)
  | None => None
  end.
Proof. intros Hbody. simpl. rewrite Hbody. reflexivity. Qed.

Lemma scan_once_int fuel n rest :
  scan_once (S fuel) (encode_int n ++ rest) =
  match match_number (encode_int n ++ rest) with
  | Some (n, after) => Some (LInt n, after)
  | None => None
  end.
Proof.
  unfold encode_int. destruct n as [|p|p]; simpl Z.to_int; [reflexivity| |];
    pose proof (DecimalPos.Unsigned.to_uint_nonnil p) as Hnil;
    unfold NilZero.string_of_int, NilZero.string_of_uint;
    destruct (Pos.to_uint p); try congruence; reflexivity.
Qed.

Lemma weight_item (x : literal) items :
  In x items ->
  (S (weight x) <= list_sum (List.map (fun x => S (weight x)) items))%nat.
Proof.
  induction items as [|y items IH]; intros Hin; [destruct Hin|].
  simpl. destruct Hin as [->|Hin]; [lia|]. specialize (IH Hin). lia.
Qed.

Lemma weight_value (x : literal) (items : list (string * literal)) :
  In x (List.map snd items) ->
  (S (weight x) <= list_sum (List.map (fun '(_, x) => S (weight x)) items))%nat.
Proof.
  induction items as [|[k y] items IH]; intros Hin; [destruct Hin|].
  simpl in *. destruct Hin as [->|Hin]; [lia|]. specialize (IH Hin). lia.
Qed.

Lemma length_le_sum {A} (f : A -> nat) items :
  (length items <= list_sum (List.map (fun x => S (f x)) items))%nat.
Proof. induction items as [|y items IH]; simpl; lia. Qed.

Lemma length_le_values (items : list (string * literal)) :
  (length items <= list_sum (List.map (fun '(_, x) => S (weight x)) items))%nat.
Proof. induction items as [|[k y] items IH]; simpl; lia. Qed.

Lemma distinct_item (x : literal) items :
  forallb distinct_keys items = true -> In x items -> distinct_keys x = true.
Proof. intros H Hin. by apply (proj1 (forallb_forall _ _) H). Qed.

Lemma distinct_value (x : literal) (items : list (string * literal)) :
  forallb (fun '(_, x) => distinct_keys x) items = true ->
  In x (List.map snd items) -> distinct_keys x = true.
Proof.
  intros H Hin. apply in_map_iff in Hin as ([k y] & <- & Hin).
  by apply (proj1 (forallb_forall _ _) H (k, y)).
Qed.

(** Decoding what was encoded gives the value back and stops after it. *)
Lemma scan_once_encode : forall fuel v level rest,
  (weight v <= fuel)%nat ->
  distinct_keys v = true ->
  boundary rest = true ->
  scan_once fuel (encode level v ++ rest) = Some (v, rest).
Proof.
  induction fuel as [|fuel IH]; intros v level rest Hw Hd Hb.
  { destruct v; simpl in Hw; lia. }
  destruct v as [|[]|n|s|[|x xs]|[|p ps]]; try reflexivity.
  - simpl encode. by rewrite scan_once_int, match_number_int.
  - simpl encode. rewrite encode_string_append.
    change (scan_once (S fuel) (String quote ?t))
      with (match scanstring t with
            | Some (text, after) => Some (LStr text, after)
            | None => None
            end).
    by rewrite scanstring_chars.
  - simpl in Hw, Hd. apply andb_true_iff in Hd as [Hx Hxs].
    simpl encode.
    rewrite append_cons, !append_assoc, more_append, append_assoc.
    change ("]" ++ rest) with (String "]" rest).
    match goal with
    | |- context [encode (S level) x ++ ?t] =>
        destruct (encode_head x (S level) t) as (c & s & Hhead & Hws & Hbr)
    end.
    rewrite (scan_once_list fuel _ c s);
      [|by rewrite skip_ws_newline_indent, Hhead, skip_ws_head | assumption].
    rewrite <- Hhead.
    rewrite (array_loop_items (scan_once fuel) level rest xs x fuel);
      [reflexivity | | pose proof (length_le_sum weight xs); lia].
    intros y r Hy Hr. apply IH; [| |done].
    + pose proof (weight_item y (x :: xs) Hy) as Hwy. simpl in Hwy. lia.
    + destruct Hy as [<-|Hy]; [assumption | by eapply distinct_item].
  - simpl in Hw, Hd.
    apply andb_true_iff in Hd as [Hnd Hd].
    apply andb_true_iff in Hd as [Hx Hxs].
    apply bool_decide_eq_true in Hnd.
    simpl encode.
    rewrite append_cons, !append_assoc, more_append, append_assoc.
    change ("}" ++ rest) with (String "}" rest).
    assert (object_loop (scan_once fuel) fuel
              (encode_pair (encode (S level)) p ++
               more (encode_pair (encode (S level)))
                 (String "," (newline_indent (S level)))
                 (newline_indent level ++ String "}" rest) ps)
            = Some (p :: ps, rest)) as Hloop.
    { apply object_loop_items; [|pose proof (length_le_values ps)].
      - intros y r Hy Hr. apply IH; [| |done].
        + pose proof (weight_value y (p :: ps) Hy) as Hwy.
          destruct p. simpl in Hwy, Hw. lia.
        + apply (distinct_value y (p :: ps)); [|assumption].
          simpl. destruct p. by rewrite Hx, Hxs.
      - destruct p. simpl in Hw. lia. }
    destruct p as [k y].
    match goal with
    | |- context [encode_pair ?e (k, y) ++ ?t] =>
        change (encode_pair e (k, y) ++ t)
          with (String quote ((encode_chars k ++ String quote "")
                              ++ (": " ++ e y)) ++ t) in *
    end.
    rewrite append_cons in Hloop |- *.
    erewrite scan_once_dict;
      [|rewrite skip_ws_newline_indent; apply skip_ws_head; reflexivity].
    rewrite Hloop. by rewrite dict_facts.dict_of_distinct.
Qed.

(** *** The whole text *)

Local Transparent newline_indent.

Lemma length_more_items enc lead close (items : list literal) :
  (forall x, In x items -> (weight x <= String.length (enc x))%nat) ->
  (list_sum (List.map (fun x => S (weight x)) items)
   <= String.length (more enc (String "," lead) close items))%nat.
Proof.
  induction items as [|y items IH]; intros Hall; [simpl; lia|].
  simpl. rewrite ?length_append.
  pose proof (Hall y (or_introl eq_refl)).
  assert (forall x, In x items -> (weight x <= String.length (enc x))%nat) as Hrest
    by (intros; apply Hall; by right).
  specialize (IH Hrest). lia.
Qed.

Lemma length_encode_pair enc k (x : literal) :
  (String.length (enc x) <= String.length (encode_pair enc (k, x)))%nat.
Proof. unfold encode_pair. rewrite !length_append. lia. Qed.

Lemma length_more_pairs enc lead close (items : list (string * literal)) :
  (forall x, In x (List.map snd items) -> (weight x <= String.length (enc x))%nat) ->
  (list_sum (List.map (fun '(_, x) => S (weight x)) items)
   <= String.length (more (encode_pair enc) (String "," lead) close items))%nat.
Proof.
  induction items as [|[k y] items IH]; intros Hall; [simpl; lia|].
  cbn [more List.map list_sum]. rewrite !length_append.
  pose proof (Hall y (or_introl eq_refl)).
  pose proof (length_encode_pair enc k y).
  assert (forall x, In x (List.map snd items) ->
                    (weight x <= String.length (enc x))%nat) as Hrest
    by (intros; apply Hall; by right).
  specialize (IH Hrest).
  change (list_sum (?a :: ?l)) with (a + list_sum l)%nat.
  change (String.length (String "," lead)) with (S (String.length lead)). lia.
Qed.

(** The text of a value is at least as long as the value is heavy. *)
Lemma weight_le_length : forall n v level,
  (weight v <= n)%nat -> (weight v <= String.length (encode level v))%nat.
Proof.
  induction n as [|n IH]; intros v level Hw.
  { destruct v; simpl in Hw; lia. }
  destruct v as [|[]|z|s|[|x xs]|[|[k x] ps]]; try (simpl; lia).
  - destruct (encode_head (LInt z) level "") as (c & s & Hhead & _).
    rewrite append_empty in Hhead. rewrite Hhead. simpl. lia.
  - simpl in *. rewrite length_append.
    pose proof (IH x (S level)).
    pose proof (length_more_items (encode (S level)) (newline_indent (S level))
                  (newline_indent level ++ "]") xs) as Hmore.
    unfold newline_indent in *. simpl in *. rewrite length_append.
    assert (forall y, In y xs -> (weight y <= String.length (encode (S level) y))%nat).
    { intros y Hy. apply IH. pose proof (weight_item y xs Hy). lia. }
    specialize (Hmore H0). lia.
  - simpl in *. rewrite length_append.
    pose proof (IH x (S level)).
    pose proof (length_more_pairs (encode (S level)) (newline_indent (S level))
                  (newline_indent level ++ "}") ps) as Hmore.
    unfold newline_indent in *. simpl in *. rewrite !length_append.
    assert (forall y, In y (List.map snd ps) ->
                      (weight y <= String.length (encode (S level) y))%nat).
    { intros y Hy. apply IH. pose proof (weight_value y ps Hy). lia. }
    specialize (Hmore H0). simpl. lia.
Qed.

(** [loads] undoes [dumps] on every literal structure. *)
Lemma loads_dumps v : distinct_keys v = true -> loads (dumps v) = Some v.
Proof.
  intros Hd. unfold loads, dumps.
  pose proof (skip_ws_encode v 0 "") as Hskip.
  pose proof (scan_once_encode (S (String.length (encode 0 v))) v 0 "") as Hscan.
  rewrite append_empty in Hskip, Hscan. rewrite Hskip, Hscan; [reflexivity| | |].
  - pose proof (weight_le_length (weight v) v 0). lia.
  - assumption.
  - reflexivity.
Qed.
End json_facts.


(** ** The command-line plugin *)

Module plugin_claims.
Import plugin dict_facts.

(** [single] itself does what the command promises: it runs the grader on
    a context built from the absolute target path and writes the dumped
    report as JSON to the report path, when that path can be opened. *)
Lemma single_writes_report {Grader Report} grader_run dump absolute
    (g : Grader) items target items1 (rep : Report) path items2 w w1 :
  pop items "target" = Ok (target, items1) ->
  grader_run g (grade.mkContext (Some (absolute target)) items1) w = (Ok rep, w1) ->
  pop items1 "report" = Ok (path, items2) ->
  refusal (files w1) path = None ->
  single Grader Report grader_run dump absolute (AGrader Grader g) (Mapping items) w
  = (Ok tt, set_files (<[path := File (Text (json.dumps (dump rep)))]>) w1).
Proof.
  intros Htarget Hrun Hreport Hfile.
  unfold single, mbind, M_bind, lift, args_pop. rewrite Htarget.
  unfold call_run. rewrite Hrun, Hreport.
  unfold open_w, write. rewrite Hfile.
  unfold set_files; simpl; by rewrite insert_insert_eq.
Qed.

(** C6, where the code leaves the claim: on [grade single <target>
    <report>] the plugin's [run] never gets to [single].  With the
    [Namespace] the parser produces, [args.pop] is an [AttributeError]; with
    a dictionary, the global [grader] that [run] hands to [single] is bound
    nowhere in the module and reading it is a [NameError].  Either way the
    command raises, nothing is graded or written, and the exit status is
    not 0. *)
Theorem grade_single_raises {Grader Report} grader_run dump absolute summarize
    (args : arguments) (w : World) :
  match args with
  | Namespace _ => True
  | Mapping items => getitem items "command" = Some "single"
  end ->
  exists e,
    run Grader Report grader_run dump absolute summarize
      (module_globals Grader) args w = (Raise e, w) /\
    e = match args with
        | Namespace _ => AttributeError "pop"
        | Mapping _ => NameError "grader"
        end /\
    exit_code (@Raise unit e) <> 0.
Proof.
  intros Hcommand. destruct args as [attributes|items].
  - exists (AttributeError "pop").
    split; [reflexivity|]. split; [reflexivity | discriminate].
  - exists (NameError "grader").
    split; [|split; [reflexivity | discriminate]].
    destruct (pop_getitem _ _ _ Hcommand) as [items' Hpop].
    unfold run, mbind, M_bind, lift, args_pop. rewrite Hpop. reflexivity.
Qed.

Lemma grade_single_raises_witness :
  run unit string plugin_samples.echo plugin_samples.as_literal
    plugin_samples.under_home plugin_samples.no_summary
    (module_globals unit) (Mapping plugin_samples.command_line) samples.empty_world
  = (Raise (NameError "grader"), samples.empty_world).
Proof.
  destruct (grade_single_raises plugin_samples.echo plugin_samples.as_literal
              plugin_samples.under_home plugin_samples.no_summary
              (Mapping plugin_samples.command_line) samples.empty_world)
    as (e & Hrun & -> & _).
  - reflexivity.
  - exact Hrun.
Defined.
End plugin_claims.

(** ** The process runner and the tests that read its result *)

Module process_facts.
Import process tests.

Lemma expired_iff (x : Execution) (deadline : Q) :
  (deadline < duration x)%Q -> Qle_bool (duration x) deadline = false.
Proof.
  intros Hlt. destruct (Qle_bool (duration x) deadline) eqn:Hle; [|reflexivity].
  apply Qle_bool_iff in Hle. exfalso. by apply (Qlt_not_le _ _ Hlt).
Qed.

Lemma log_lines_app depth stderr log :
  log_lines depth stderr log =
  log ++ List.map (fun line => (depth, [LStr line]))
           (List.filter nonempty (split_lines stderr)).
Proof.
  unfold log_lines. generalize (List.filter nonempty (split_lines stderr)) as lines.
  intros lines. revert log.
  induction lines as [|line lines IH]; intros log; simpl.
  - by rewrite app_nil_r.
  - rewrite IH. unfold log_at. by rewrite <- app_assoc.
Qed.

(** A deadline that expires is read by [test_timeout] as a failure, with
    nothing added to the log. *)
Lemma test_timeout_expired start log program w x w' :
  start (path program :: ["hang"]) 1%Q w = (x, w') ->
  (1 < duration x)%Q ->
  test_timeout start log program w =
  (Ok (mkCorrectnessResult false (observe x 1), log), w').
Proof.
  intros Hstart Hlt.
  unfold test_timeout, execute, process.run, mbind, M_bind. rewrite Hstart.
  unfold observe. rewrite (expired_iff _ _ Hlt). reflexivity.
Qed.
End process_facts.


(** * Further properties of the code *)

(** ** More on the Valgrind adapter *)

Module valgrind_more.
Import ValgrindReport valgrind_spec valgrind_facts.

(** From other counters the loop of [memory_lost] gives the same sums,
    shifted. *)
Lemma count_shift es : forall a b x y,
  count es 0 0 = Ok (x, y) -> count es a b = Ok (a + x, b + y).
Proof.
  assert (forall es a b a' b' x y,
            count es a b = Ok (x, y) ->
            count es (a + a') (b + b') = Ok (x + a', y + b')) as Hgen.
  { clear es. induction es as [|e es IH]; intros a b a' b' x y H; simpl in *.
    - by injection H as <- <-.
    - destruct (is_leak (ValgrindError.kind e)); [|by apply IH].
      destruct (leaked "leakedbytes" e) as [u|]; simpl in *; [|discriminate].
      destruct (leaked "leakedblocks" e) as [v|]; simpl in *; [|discriminate].
      replace (a + a' + u) with (a + u + a') by lia.
      replace (b + b' + v) with (b + v + b') by lia. by apply IH. }
  intros a b x y H. specialize (Hgen es 0 0 a b x y H).
  replace (a + x) with (x + a) by lia. replace (b + y) with (y + b) by lia.
  exact Hgen.
Qed.

(** If the loop returns, every leak entry was readable. *)
Lemma count_returns_readable es : forall a b,
  returns (count es a b) ->
  forall e, In e es -> is_leak (ValgrindError.kind e) = true -> readable e.
Proof.
  induction es as [|e' es IH]; intros a b Hret e Hin Hk; [destruct Hin|].
  simpl in Hret. destruct Hin as [->|Hin].
  - rewrite Hk in Hret. unfold readable.
    destruct (leaked "leakedbytes" e) as [x|x]; simpl in Hret;
      [|destruct Hret; discriminate].
    destruct (leaked "leakedblocks" e) as [y|y]; simpl in Hret;
      [|destruct Hret; discriminate].
    eauto.
  - destruct (is_leak (ValgrindError.kind e')); [|by eapply IH].
    destruct (leaked "leakedbytes" e'); simpl in Hret; [|destruct Hret; discriminate].
    destruct (leaked "leakedblocks" e'); simpl in Hret; [|destruct Hret; discriminate].
    by eapply IH.
Qed.

(** [memory_lost] returns exactly when the error list is there and each
    of its leak entries carries both fields as integers; otherwise it
    raises. *)
Theorem memory_lost_returns_iff (r : ValgrindReport.t) :
  returns (memory_lost r) <->
  exists es,
    errors r = Some es /\
    forall e, In e es -> is_leak (ValgrindError.kind e) = true -> readable e.
Proof.
  unfold memory_lost. split.
  - destruct (errors r) as [es|]; [|intros [? ?]; discriminate].
    intros Hret. exists es. split; [reflexivity|].
    by apply (count_returns_readable es 0 0).
  - intros (es & -> & Hall). rewrite count_totals by assumption. eauto.
Qed.

Lemma total_permutation name es es' :
  Permutation es es' -> total name es = total name es'.
Proof.
  induction 1 as [|e es es' _ IH|e1 e2 es|es1 es2 es3 _ IH1 _ IH2].
  - reflexivity.
  - destruct (is_leak (ValgrindError.kind e)) eqn:Hk.
    + rewrite !total_cons_leak by assumption. by rewrite IH.
    + by rewrite !total_cons_other.
  - unfold total, leak_entries. simpl.
    destruct (is_leak (ValgrindError.kind e1)), (is_leak (ValgrindError.kind e2));
      simpl; lia.
  - by rewrite IH1.
Qed.

(** The order of the entries does not matter to a [memory_lost] that
    returns: on any rearrangement of the error list it returns the same
    pair. *)
Theorem memory_lost_permutation rt rt' es es' :
  Permutation es es' ->
  returns (memory_lost (mk rt (Some es))) ->
  memory_lost (mk rt' (Some es')) = memory_lost (mk rt (Some es)).
Proof.
  intros Hperm Hret. unfold memory_lost in *. simpl in *.
  pose proof (count_returns_readable es 0 0 Hret) as Hall.
  rewrite (count_totals es) by assumption.
  rewrite (count_totals es').
  - by rewrite !(total_permutation _ _ _ Hperm).
  - intros e Hin. apply Hall. apply (Permutation_in e (Permutation_sym Hperm) Hin).
Qed.

Lemma memory_lost_permutation_witness :
  memory_lost (mk samples.quiet (Some [samples.read_error; samples.leak_error]))
  = memory_lost samples.sample_report.
Proof.
  apply (memory_lost_permutation samples.quiet samples.quiet
           [samples.leak_error; samples.read_error]
           [samples.read_error; samples.leak_error]).
  - apply perm_swap.
  - vm_compute. eauto.
Defined.

(** Leaks add up over concatenated error lists: when [memory_lost] returns
    on two lists it returns, on the two put together, the sums of the
    bytes and of the blocks. *)
Theorem memory_lost_app rt es1 es2 a1 b1 a2 b2 :
  memory_lost (mk rt (Some es1)) = Ok (a1, b1) ->
  memory_lost (mk rt (Some es2)) = Ok (a2, b2) ->
  memory_lost (mk rt (Some (es1 ++ es2))) = Ok (a1 + a2, b1 + b2).
Proof.
  unfold memory_lost. simpl. intros H1 H2.
  rewrite (count_app _ _ _ _ _ _ H1). by apply count_shift.
Qed.

Lemma memory_lost_app_witness :
  memory_lost (mk samples.quiet
                 (Some ([samples.leak_error; samples.read_error] ++ [samples.leak_error])))
  = Ok (128 + 128, 2 + 2).
Proof.
  apply (memory_lost_app samples.quiet [samples.leak_error; samples.read_error]
           [samples.leak_error] 128 2 128 2); vm_compute; reflexivity.
Defined.

(** An element other than [what] is read as a structured node: its text is
    that of its last [tag] child, and the empty string when it has none (as
    in Valgrind's own output, whose message is in a [text] child); every
    other child name is a field holding the text of the last child of that
    name; [tag] itself is never a field. *)
Theorem xwhat_node element :
  Element.tag element <> "what" ->
  exists w,
    ValgrindWhat.load (Some element) = Some w /\
    ValgrindWhat.text w = xwhat_text (Element.children element) /\
    (forall name,
       ValgrindWhat.fields w !! name = xwhat_field name (Element.children element)) /\
    ValgrindWhat.fields w !! "tag" = None /\
    ((forall c, In c (Element.children element) -> Element.tag c <> "tag") ->
     ValgrindWhat.text w = Some "").
Proof.
  intros Htag. destruct (load_xwhat element Htag) as (w & Hload & Htext & Hfields).
  exists w. split; [assumption|]. split; [assumption|]. split; [assumption|].
  split; [by rewrite Hfields|].
  intros Hnone. rewrite Htext. unfold xwhat_text, last_text.
  assert (List.filter (fun c => String.eqb (Element.tag c) "tag")
            (Element.children element) = []) as ->; [|reflexivity].
  revert Hnone. generalize (Element.children element) as cs. clear.
  induction cs as [|c cs IH]; intros Hnone; [reflexivity|]. simpl.
  destruct (String.eqb (Element.tag c) "tag") eqn:Hc.
  - apply String.eqb_eq in Hc. exfalso. apply (Hnone c); [by left | assumption].
  - apply IH. intros; apply Hnone. by right.
Qed.

Lemma xwhat_node_witness :
  exists w,
    ValgrindWhat.load (Some coverage_spec.valgrind_xwhat) = Some w /\
    ValgrindWhat.text w = Some "" /\
    ValgrindWhat.fields w !! "leakedbytes" = Some (Some "16") /\
    ValgrindWhat.fields w !! "text"
      = Some (Some "16 bytes in 1 blocks are possibly lost") /\
    ValgrindWhat.fields w !! "tag" = None.
Proof.
  destruct (xwhat_node coverage_spec.valgrind_xwhat)
    as (w & Hload & Htext & Hfields & Htag & Hnone).
  - vm_compute. discriminate.
  - exists w. split; [exact Hload|]. split.
    + apply Hnone. simpl. intros c [<- | [<- | [<- | [<- | []]]]]; vm_compute; discriminate.
    + split; [rewrite Hfields; reflexivity|].
      split; [rewrite Hfields; reflexivity | exact Htag].
Defined.

Lemma load_errors_appends children : forall acc es,
  valgrind.load_errors children acc = Ok es <->
  exists new,
    es = acc ++ new /\
    Forall2 (fun el e => ValgrindError.load el = Ok e)
      (coverage_spec.error_children children) new.
Proof.
  unfold coverage_spec.error_children.
  induction children as [|c children IH]; intros acc es; simpl.
  - split.
    + intros [= <-]. exists []. split; [by rewrite app_nil_r | constructor].
    + intros (new & -> & Hall). apply Forall2_nil_inv_l in Hall as ->.
      by rewrite app_nil_r.
  - destruct (String.eqb (Element.tag c) "error"); [|apply IH].
    destruct (ValgrindError.load c) as [e|x] eqn:Hload; simpl.
    + rewrite IH. split.
      * intros (new & -> & Hall). exists (e :: new).
        split; [by rewrite <- app_assoc | by constructor].
      * intros (new & -> & Hall).
        apply Forall2_cons_inv_l in Hall as (e' & new' & He' & Hall & ->).
        assert (e' = e) as -> by congruence.
        exists new'. split; [by rewrite <- app_assoc | assumption].
    + split; [discriminate|]. intros (new & _ & Hall).
      apply Forall2_cons_inv_l in Hall as (e' & new' & He' & _). congruence.
Qed.

(** The loop over the root's children gives one entry per [error] child,
    in document order, and passes over every other child: it returns a
    list exactly when each [error] child loads, and the list is then as
    long as there are [error] children. *)
Theorem load_errors_order children es :
  (valgrind.load_errors children [] = Ok es <->
   Forall2 (fun el e => ValgrindError.load el = Ok e)
     (coverage_spec.error_children children) es) /\
  (valgrind.load_errors children [] = Ok es ->
   length es = length (coverage_spec.error_children children)).
Proof.
  assert (valgrind.load_errors children [] = Ok es <->
          Forall2 (fun el e => ValgrindError.load el = Ok e)
            (coverage_spec.error_children children) es) as Hiff.
  { rewrite load_errors_appends. split.
    - intros (new & -> & Hall). exact Hall.
    - intros Hall. by exists es. }
  split; [exact Hiff|]. intros Hload. apply Hiff in Hload.
  symmetry. by eapply Forall2_length.
Qed.

(** The loop stops at the first [error] child that does not load, with
    that child's exception; what was loaded before is dropped. *)
Theorem load_errors_first_failure children pre bad post x : forall acc,
  coverage_spec.error_children children = pre ++ bad :: post ->
  Forall (fun el => returns (ValgrindError.load el)) pre ->
  ValgrindError.load bad = Raise x ->
  valgrind.load_errors children acc = Raise x.
Proof.
  unfold coverage_spec.error_children.
  revert pre. induction children as [|c children IH]; intros pre acc Hsplit Hpre Hbad.
  - destruct pre; discriminate.
  - simpl in *. destruct (String.eqb (Element.tag c) "error"); [|by eapply IH].
    destruct pre as [|p pre]; simpl in Hsplit; injection Hsplit as -> Hsplit.
    + by rewrite Hbad.
    + apply Forall_cons in Hpre as [[e He] Hpre]. rewrite He. simpl.
      by eapply IH.
Qed.

Lemma load_errors_first_failure_witness :
  valgrind.load_errors
    [samples.leak_element; mkElement "pid" (Some "3") []; samples.torn_element;
     samples.read_element] []
  = Raise (AttributeError "text").
Proof.
  apply (load_errors_first_failure _ [samples.leak_element] samples.torn_element
           [samples.read_element]).
  - reflexivity.
  - constructor; [|constructor]. vm_compute. eauto.
  - reflexivity.
Defined.

(** Whatever happens, [run] itself changes nothing but the report file: on
    every other path, in the journal and on the clock the world is as the
    process left it, and the report file is either removed or untouched.
    An exception of the process runner is passed on unchanged. *)
Theorem run_frame process_run args timeout w :
  let after := (process_run (valgrind.command args) timeout w).2 in
  let final := (valgrind.run process_run args timeout w).2 in
  (forall path, path <> valgrind.VALGRIND_XML_FILE ->
     files final !! path = files after !! path) /\
  (files final !! valgrind.VALGRIND_XML_FILE = None \/
   files final !! valgrind.VALGRIND_XML_FILE
     = files after !! valgrind.VALGRIND_XML_FILE) /\
  journal final = journal after /\
  clock final = clock after /\
  (forall x, (process_run (valgrind.command args) timeout w).1 = Raise x ->
     (valgrind.run process_run args timeout w).1 = Raise x).
Proof.
  simpl. rewrite run_cases.
  destruct (process_run (valgrind.command args) timeout w) as [[rt|x] w1]; simpl.
  - destruct (files w1 !! valgrind.VALGRIND_XML_FILE) as [[[root|data]|]|] eqn:Hf;
      simpl.
    + destruct (valgrind.load_errors (Element.children root) []); simpl.
      * split; [intros path Hne; by apply lookup_delete_ne|].
        split; [left; apply lookup_delete_eq|].
        split; [done|]. split; [done|]. discriminate.
      * split; [done|]. split; [by right|]. split; [done|]. split; [done|].
        discriminate.
    + split; [done|]. split; [by right|]. split; [done|]. split; [done|].
      discriminate.
    + split; [done|]. split; [by right|]. split; [done|]. split; [done|].
      discriminate.
    + split; [done|]. split; [by right|]. split; [done|]. split; [done|].
      discriminate.
  - split; [done|]. split; [by right|]. split; [done|]. split; [done|].
    intros x0 [= ->]. reflexivity.
Qed.

(** Where a returned report comes from: its [Runtime] is the one the
    process runner returned; a null error list means there was no report
    file and nothing was changed; an error list means the file held a
    document, the list has one loaded entry per [error] child of its root
    in order, and the file is gone.  So [run] never returns a null list
    for a file that was there, nor a list for a file that was not. *)
Theorem run_report_origin process_run args timeout w report w2 :
  valgrind.run process_run args timeout w = (Ok report, w2) ->
  exists w1,
    process_run (valgrind.command args) timeout w = (Ok (runtime report), w1) /\
    match errors report with
    | None => files w1 !! valgrind.VALGRIND_XML_FILE = None /\ w2 = w1
    | Some es =>
        exists root,
          files w1 !! valgrind.VALGRIND_XML_FILE = Some (File (Document root)) /\
          Forall2 (fun el e => ValgrindError.load el = Ok e)
            (coverage_spec.error_children (Element.children root)) es /\
          files w2 !! valgrind.VALGRIND_XML_FILE = None
    end.
Proof.
  rewrite run_cases.
  destruct (process_run (valgrind.command args) timeout w) as [[rt|x] w1];
    [|discriminate].
  destruct (files w1 !! valgrind.VALGRIND_XML_FILE) as [[[root|data]|]|] eqn:Hf;
    try discriminate.
  - destruct (valgrind.load_errors (Element.children root) []) as [es|x] eqn:Hload;
      [|discriminate].
    intros [= <- <-]. exists w1. split; [reflexivity|]. simpl.
    exists root. split; [exact Hf|]. split; [|apply lookup_delete_eq].
    apply load_errors_appends in Hload as (new & -> & Hall). exact Hall.
  - intros [= <- <-]. exists w1. by split.
Qed.

Lemma run_report_origin_witness :
  exists w1,
    samples.idle (valgrind.command []) 1%Q
      (samples.world_of (Document samples.report_document))
      = (Ok (runtime samples.sample_report), w1) /\
    exists root,
      files w1 !! valgrind.VALGRIND_XML_FILE = Some (File (Document root)) /\
      Forall2 (fun el e => ValgrindError.load el = Ok e)
        (coverage_spec.error_children (Element.children root))
        [samples.leak_error; samples.read_error] /\
      files (set_files (delete valgrind.VALGRIND_XML_FILE)
               (samples.world_of (Document samples.report_document)))
        !! valgrind.VALGRIND_XML_FILE = None.
Proof.
  apply (run_report_origin samples.idle [] 1%Q
           (samples.world_of (Document samples.report_document))
           samples.sample_report
           (set_files (delete valgrind.VALGRIND_XML_FILE)
              (samples.world_of (Document samples.report_document)))).
  rewrite run_cases. vm_compute. reflexivity.
Defined.
End valgrind_more.

(** ** More on ordered dictionaries and the assignment runner *)

Module grade_more.
Import grade dict_facts grade_facts.

Section dict_more.
Context {V : Type}.
Implicit Types (d pairs : list (string * V)) (key k : string) (value v : V).

(** Reading after writing: the key written holds the value, every other
    key what it held. *)
Lemma getitem_setitem d key value k :
  getitem (setitem d key value) k =
  if String.eqb key k then Some value else getitem d k.
Proof.
  induction d as [|[k' v'] d IH]; simpl.
  - reflexivity.
  - destruct (String.eqb k' key) eqn:Hk'; simpl.
    + apply String.eqb_eq in Hk'. subst k'. by destruct (String.eqb key k).
    + destruct (String.eqb k' k) eqn:Hk.
      * apply String.eqb_eq in Hk. subst k'. by rewrite String.eqb_sym, Hk'.
      * exact IH.
Qed.

Lemma find_app_last {A} (f : A -> bool) (l l' : list A) :
  List.find f (l ++ l') =
  match List.find f l with
  | Some x => Some x
  | None => List.find f l'
  end.
Proof.
  induction l as [|a l IH]; simpl; [reflexivity|]. by destruct (f a).
Qed.

Lemma getitem_update pairs : forall d k,
  getitem (update d pairs) k =
  match coverage_spec.last_value pairs k with
  | Some v => Some v
  | None => getitem d k
  end.
Proof.
  unfold coverage_spec.last_value.
  induction pairs as [|[k' v'] pairs IH]; intros d k; [reflexivity|].
  unfold update in *. simpl. rewrite IH, getitem_setitem.
  rewrite find_app_last. destruct (List.find _ (rev pairs)); simpl; [reflexivity|].
  by destruct (String.eqb k' k).
Qed.
End dict_more.

(** An exception of a grader ends [run] there: when, in this run, a grader
    raises, [run] raises that exception in the world that grader left, with
    no closing line logged; the graders called before it returned, and the
    problems after it are not called at all.  That is the only way [run]
    raises. *)
Theorem run_grader_raises {Result : Type} joinpath round5
    (assignment : GradingAssignment Result) path options w x :
  let cs := calls Result joinpath (automated Result assignment) path options
              (started path w) in
  (failure Result cs = Some x <->
   (run Result joinpath round5 assignment path options w).1 = Raise x) /\
  (failure Result cs = Some x ->
   exists pre c post,
     cs = pre ++ [c] /\
     automated Result assignment
       = List.map (problem Result) pre ++ problem Result c :: post /\
     Forall (fun c' => returns (outcome Result c')) pre /\
     Forall (called Result joinpath path options) cs /\
     chained Result (started path w) cs /\
     outcome Result c = Raise x /\
     run Result joinpath round5 assignment path options w
       = (Raise x, after Result c)).
Proof.
  intros cs.
  pose proof (run_calls joinpath round5 assignment path options w) as Hrun.
  simpl in Hrun. fold cs in Hrun.
  split.
  { rewrite Hrun. destruct (failure Result cs); simpl; split; congruence. }
  intros Hfail. rewrite Hfail in Hrun.
  destruct (calls_failure joinpath path options _ x _ Hfail)
    as (pre & c & Hcs & Hc & Hpre & Hfin).
  destruct (calls_problems joinpath path options (automated Result assignment)
              (started path w)) as (post & Htodo & _).
  pose proof (calls_called joinpath path options (automated Result assignment)
                (started path w)) as Hcalled.
  fold cs in Hcs, Hfin, Htodo, Hcalled.
  exists pre, c, post. split; [exact Hcs|]. split.
  { rewrite Htodo at 1. rewrite Hcs, map_app. simpl. by rewrite <- app_assoc. }
  split; [exact Hpre|]. split; [exact Hcalled|].
  split; [apply calls_chained|].
  split; [exact Hc|]. by rewrite Hrun, Hfin.
Qed.

Lemma run_grader_raises_witness :
  run string grade_samples.slash grade_samples.seconds coverage_spec.unstaged
    "submissions/alice" [] samples.empty_world
  = (Raise FileNotFoundError,
     mkWorld ∅ [(INFO, "running submissions/alice"); (DEBUG, "running problem check")] 0)
  /\ returns
       (run string grade_samples.slash grade_samples.seconds coverage_spec.staged
          "submissions/alice" [] samples.empty_world).1.
Proof.
  split.
  - destruct (run_grader_raises grade_samples.slash grade_samples.seconds
                coverage_spec.unstaged "submissions/alice" [] samples.empty_world
                FileNotFoundError) as (_ & Hends).
    destruct (Hends eq_refl) as (pre & c & post & Hcs & _ & _ & _ & _ & _ & Hrun).
    rewrite Hrun. f_equal.
    destruct pre as [|c0 [|c1 pre]]; simpl in Hcs; [|discriminate Hcs|discriminate Hcs].
    injection Hcs as <-. reflexivity.
  - by eexists.
Defined.

(** Under a short name the report of a run holds the results the last
    automated problem of that name was given in this run: a later problem
    replaces an earlier one's results, and a name no automated problem has
    is not in the report. *)
Theorem run_last_wins {Result : Type} joinpath round5
    (assignment : GradingAssignment Result) path options w report w' :
  run Result joinpath round5 assignment path options w = (Ok report, w') ->
  let cs := calls Result joinpath (automated Result assignment) path options
              (started path w) in
  List.map (problem Result) cs = automated Result assignment /\
  Forall (called Result joinpath path options) cs /\
  Forall2 (fun c r => outcome Result c = Ok r) cs (results Result cs) /\
  forall k,
    getitem report k =
    coverage_spec.last_value
      (combine (List.map (short Result) (automated Result assignment))
         (results Result cs)) k.
Proof.
  intros Hok cs.
  pose proof (run_calls joinpath round5 assignment path options w) as Hrun.
  simpl in Hrun. fold cs in Hrun. rewrite Hok in Hrun.
  destruct (failure Result cs) eqn:Hfail; [discriminate|].
  injection Hrun as Hreport _.
  destruct (calls_problems joinpath path options (automated Result assignment)
              (started path w)) as (post & Htodo & Hpost).
  fold cs in Htodo, Hpost. rewrite (Hpost Hfail), app_nil_r in Htodo.
  split; [by symmetry|]. split; [apply calls_called|].
  split; [by apply calls_returned|].
  intros k. rewrite Hreport. unfold dict_of. rewrite getitem_update. simpl.
  by destruct (coverage_spec.last_value _ k).
Qed.

Lemma run_last_wins_witness :
  exists report w',
    run string grade_samples.slash grade_samples.seconds coverage_spec.twice
      "submissions/alice" [] samples.empty_world = (Ok report, w') /\
    getitem report "heap" = Some ["test_new"] /\
    getitem report "tree" = None.
Proof.
  destruct (run string grade_samples.slash grade_samples.seconds coverage_spec.twice
              "submissions/alice" [] samples.empty_world) as [[report|x] w'] eqn:Hok;
    [|discriminate Hok].
  exists report, w'. split; [reflexivity|].
  destruct (run_last_wins grade_samples.slash grade_samples.seconds
              coverage_spec.twice "submissions/alice" [] samples.empty_world
              report w' Hok) as (_ & _ & _ & Hget).
  rewrite !Hget. split; reflexivity.
Defined.

Section run_more.
Context {Result : Type} (joinpath : string -> string -> string).

(** What calls that left the files and the journal alone add up to: the
    files stay, and the journal gains the loop's line for each call. *)
Lemma calls_silent path options todo : forall w,
  Forall (silent Result) (calls Result joinpath todo path options w) ->
  files (final Result w (calls Result joinpath todo path options w)) = files w /\
  journal (final Result w (calls Result joinpath todo path options w)) =
    journal w ++
    List.map (fun c => (DEBUG, String.append "running problem "
                                 (short Result (problem Result c))))
      (calls Result joinpath todo path options w).
Proof.
  induction todo as [|p todo IH]; intros w; simpl.
  - intros _. by rewrite app_nil_r.
  - destruct (grader_run Result p _ _ _) as [[r|x] w1] eqn:Hrun; simpl;
      intros Hq; apply Forall_cons in Hq as [[Hf Hj] Hq]; simpl in Hf, Hj.
    + destruct (IH w1 Hq) as [Hf' Hj']. split; [congruence|].
      rewrite Hj', Hj. by rewrite <- app_assoc.
    + split; [exact Hf|]. by rewrite Hj.
Qed.
End run_more.

(** [run] itself writes no file, and logs one line at its start, one per
    automated problem and one at its end with the time that passed on the
    clock: in a run that returns and in which each grader left the files
    and the journal as it found them, that is all that changes. *)
Theorem run_quiet {Result : Type} joinpath round5
    (assignment : GradingAssignment Result) path options w report w' :
  run Result joinpath round5 assignment path options w = (Ok report, w') ->
  Forall (silent Result)
    (calls Result joinpath (automated Result assignment) path options
       (started path w)) ->
  files w' = files w /\
  journal w' =
    journal w ++
    [(INFO, String.append "running " path)] ++
    List.map (fun p => (DEBUG, String.append "running problem " (short Result p)))
      (automated Result assignment) ++
    [(DEBUG, String.append "finished in "
               (String.append (round5 (clock w' - clock w)%Q) " seconds"))].
Proof.
  intros Hok Hq.
  pose proof (run_calls joinpath round5 assignment path options w) as Hrun.
  simpl in Hrun. rewrite Hok in Hrun.
  destruct (failure Result _) eqn:Hfail; [discriminate|].
  injection Hrun as _ ->.
  destruct (calls_problems joinpath path options (automated Result assignment)
              (started path w)) as (post & Htodo & Hpost).
  rewrite (Hpost Hfail), app_nil_r in Htodo.
  destruct (calls_silent joinpath path options _ _ Hq) as [Hf Hj].
  split; [exact Hf|].
  unfold finished. simpl. rewrite Hj. simpl.
  rewrite Htodo at 3. rewrite map_map. by rewrite <- !app_assoc.
Qed.

Lemma run_quiet_witness :
  exists report w',
    run string grade_samples.slash grade_samples.seconds grade_samples.hw1
      "submissions/alice" [] samples.empty_world = (Ok report, w') /\
    files w' = files samples.empty_world /\
    journal w' =
      [(INFO, "running submissions/alice");
       (DEBUG, "running problem linked_list");
       (DEBUG, "running problem heap");
       (DEBUG, "finished in 0.0 seconds")].
Proof.
  destruct (run string grade_samples.slash grade_samples.seconds grade_samples.hw1
              "submissions/alice" [] samples.empty_world) as [[report|x] w'] eqn:Hok;
    [|discriminate Hok].
  exists report, w'. split; [reflexivity|].
  destruct (run_quiet grade_samples.slash grade_samples.seconds grade_samples.hw1
              "submissions/alice" [] samples.empty_world report w' Hok) as [Hf Hj].
  - repeat constructor.
  - split; [exact Hf|]. rewrite Hj. injection Hok as _ <-. reflexivity.
Defined.
End grade_more.

(** ** More on the command-line plugin *)

Module plugin_more.
Import plugin dict_facts.

Lemma pop_missing {V} (d : list (string * V)) k :
  getitem d k = None -> pop d k = Raise (KeyError k).
Proof.
  induction d as [|[k' v'] d IH]; intros Hget; [reflexivity|].
  simpl in *. destruct (String.eqb k' k); [discriminate|]. by rewrite IH.
Qed.






(** The two arguments of [single] are not checked together: without
    ["target"] it raises a [KeyError] before anything is graded; without
    ["report"] it raises the [KeyError] only after the grader has run, so
    the grading is done and its results are written nowhere. *)
Theorem single_missing_argument {Grader Report} grader_run dump absolute
    (g : Grader) items w :
  (getitem items "target" = None ->
   single Grader Report grader_run dump absolute (AGrader Grader g) (Mapping items) w
     = (Raise (KeyError "target"), w)) /\
  (forall target items1 (rep : Report) w1,
     pop items "target" = Ok (target, items1) ->
     grader_run g (grade.mkContext (Some (absolute target)) items1) w = (Ok rep, w1) ->
     getitem items1 "report" = None ->
     single Grader Report grader_run dump absolute (AGrader Grader g) (Mapping items) w
       = (Raise (KeyError "report"), w1)).
Proof.
  split.
  - intros Hget. unfold single, mbind, M_bind, lift, args_pop.
    by rewrite (pop_missing _ _ Hget).
  - intros target items1 rep w1 Htarget Hrun Hget.
    unfold single, mbind, M_bind, lift, args_pop. rewrite Htarget.
    unfold call_run. rewrite Hrun. by rewrite (pop_missing _ _ Hget).
Qed.

Lemma single_missing_argument_witness :
  single unit string plugin_samples.echo plugin_samples.as_literal
    plugin_samples.under_home (AGrader unit tt)
    (Mapping [("report", "alice.json")]) samples.empty_world
  = (Raise (KeyError "target"), samples.empty_world) /\
  single unit string plugin_samples.echo plugin_samples.as_literal
    plugin_samples.under_home (AGrader unit tt)
    (Mapping [("target", "alice")]) samples.empty_world
  = (Raise (KeyError "report"), samples.empty_world).
Proof.
  split.
  - apply (single_missing_argument plugin_samples.echo plugin_samples.as_literal
             plugin_samples.under_home tt [("report", "alice.json")]
             samples.empty_world).
    reflexivity.
  - apply (proj2 (single_missing_argument plugin_samples.echo
                    plugin_samples.as_literal plugin_samples.under_home tt
                    [("target", "alice")] samples.empty_world)
             "alice" [] "/home/grader/alice" samples.empty_world);
      reflexivity.
Defined.

(** The other commands of [GradePlugin.run], on a dictionary: [summarize]
    fails on the unbound global [grader] as [single] does; any other
    command is accepted and does nothing at all; without a ["command"] key
    the call is a [KeyError]. *)
Theorem run_other_commands {Grader Report} grader_run dump absolute summarize
    (items : list (string * string)) (w : World) :
  (getitem items "command" = Some "summarize" ->
   run Grader Report grader_run dump absolute summarize (module_globals Grader)
     (Mapping items) w = (Raise (NameError "grader"), w)) /\
  (forall command,
     getitem items "command" = Some command ->
     command <> "single" -> command <> "summarize" ->
     run Grader Report grader_run dump absolute summarize (module_globals Grader)
       (Mapping items) w = (Ok tt, w)) /\
  (getitem items "command" = None ->
   run Grader Report grader_run dump absolute summarize (module_globals Grader)
     (Mapping items) w = (Raise (KeyError "command"), w)).
Proof.
  split; [|split].
  - intros Hget. destruct (pop_getitem _ _ _ Hget) as [items' Hpop].
    unfold run, mbind, M_bind, lift, args_pop. rewrite Hpop. reflexivity.
  - intros command Hget Hs Hz. destruct (pop_getitem _ _ _ Hget) as [items' Hpop].
    unfold run, mbind, M_bind, lift, args_pop. rewrite Hpop.
    apply String.eqb_neq in Hs, Hz. rewrite Hs, Hz. reflexivity.
  - intros Hget. unfold run, mbind, M_bind, lift, args_pop.
    by rewrite (pop_missing _ _ Hget).
Qed.

Lemma run_other_commands_witness :
  run unit string plugin_samples.echo plugin_samples.as_literal
    plugin_samples.under_home plugin_samples.no_summary (module_globals unit)
    (Mapping [("command", "summarise"); ("reports", "reports")]) samples.empty_world
  = (Ok tt, samples.empty_world).
Proof.
  apply (proj1 (proj2 (run_other_commands plugin_samples.echo
                         plugin_samples.as_literal plugin_samples.under_home
                         plugin_samples.no_summary
                         [("command", "summarise"); ("reports", "reports")]
                         samples.empty_world)) "summarise").
  - reflexivity.
  - discriminate.
  - discriminate.
Defined.
End plugin_more.

(** ** More on the correctness tests *)

Module tests_facts.
Import tests tests_more process_facts.

(** [test_pass] and [test_fail] look at the output only: the result passes
    exactly when the stripped stdout is [pass], whatever the exit code and
    the timeout flag, so a program that prints pass and then crashes
    passes; [test_fail] logs what it got only when the result fails. *)
Theorem output_only_tests start log program w w1 w2 rt1 rt2 :
  execute start program ["pass"] 1%Q w = (Ok rt1, w1) ->
  execute start program ["fail"] 1%Q w = (Ok rt2, w2) ->
  test_pass start program w
    = (Ok (mkCorrectnessResult (String.eqb (strip (stdout rt1)) "pass") rt1), w1) /\
  exists log',
    test_fail start log program w
      = (Ok (mkCorrectnessResult (String.eqb (strip (stdout rt2)) "pass") rt2, log'), w2) /\
    (strip (stdout rt2) = "pass" -> log' = log) /\
    (strip (stdout rt2) <> "pass" ->
     log' = log ++ [(2, [LStr "expected pass, got"; LStr (strip (stdout rt2))])]).
Proof.
  intros H1 H2. split.
  - unfold test_pass, mbind, M_bind. rewrite H1. reflexivity.
  - unfold test_fail, mbind, M_bind. rewrite H2. eexists. split; [reflexivity|].
    split.
    + intros ->. reflexivity.
    + intros Hne. apply String.eqb_neq in Hne. rewrite Hne. reflexivity.
Qed.

Lemma output_only_tests_witness :
  test_pass (always late_abort) (mkExecutable "build/program") samples.empty_world
  = (Ok (mkCorrectnessResult true (process.observe late_abort 1)), samples.empty_world) /\
  code (process.observe late_abort 1) = Some (-6).
Proof.
  destruct (output_only_tests (always late_abort) [] (mkExecutable "build/program")
              samples.empty_world samples.empty_world samples.empty_world
              (process.observe late_abort 1) (process.observe late_abort 1))
    as [Hpass _].
  - reflexivity.
  - reflexivity.
  - split; [exact Hpass | reflexivity].
Defined.

(** [test_error], [test_fault] and [test_timeout] never pass a run that
    did not end with exit code 0: a passing result means code 0 and a
    stripped stdout of [pass], and for [test_timeout] no timeout. *)
Theorem failed_run_never_passes start log program w :
  (forall r log' w',
     test_error start log program w = (Ok (r, log'), w') ->
     passing r = true ->
     code (runtime r) = Some 0 /\ strip (stdout (runtime r)) = "pass") /\
  (forall r log' w',
     test_fault start log program w = (Ok (r, log'), w') ->
     passing r = true ->
     code (runtime r) = Some 0 /\ strip (stdout (runtime r)) = "pass") /\
  (forall r log' w',
     test_timeout start log program w = (Ok (r, log'), w') ->
     passing r = true ->
     code (runtime r) = Some 0 /\ strip (stdout (runtime r)) = "pass" /\
     timeout (runtime r) = false).
Proof.
  assert (forall c, negb (code_is c 0) = false -> c = Some 0) as Hcode.
  { intros [n|]; simpl; [|discriminate]. intros H.
    apply negb_false_iff, Z.eqb_eq in H. by subst. }
  split; [|split]; intros r log' w'.
  - unfold test_error, execute, process.run, mbind, M_bind.
    destruct (start _ _ _) as [x w1].
    destruct (negb (code_is (code (process.observe x 1)) 0)) eqn:Hc;
      intros [= <- _ _] Hp; simpl in *; [discriminate|].
    split; [by apply Hcode | by apply String.eqb_eq].
  - unfold test_fault, execute, process.run, mbind, M_bind.
    destruct (start _ _ _) as [x w1].
    destruct (negb (code_is (code (process.observe x 1)) 0)) eqn:Hc;
      intros [= <- _ _] Hp; simpl in *; [discriminate|].
    split; [by apply Hcode | by apply String.eqb_eq].
  - unfold test_timeout, execute, process.run, mbind, M_bind.
    destruct (start _ _ _) as [x w1].
    destruct (timeout (process.observe x 1)) eqn:Ht;
      [intros [= <- _ _] Hp; discriminate|].
    destruct (negb (code_is (code (process.observe x 1)) 0)) eqn:Hc;
      intros [= <- _ _] Hp; simpl in *; [discriminate|].
    split; [by apply Hcode|]. split; [by apply String.eqb_eq | assumption].
Qed.

Lemma failed_run_never_passes_witness :
  code (process.observe good 1) = Some 0 /\
  strip (stdout (process.observe good 1)) = "pass".
Proof.
  apply (proj1 (proj2 (failed_run_never_passes (always good) []
                         (mkExecutable "build/program") samples.empty_world))
           (mkCorrectnessResult true (process.observe good 1))
           [(0, [LStr "expected pass, got fail"])] samples.empty_world);
    reflexivity.
Defined.

(** On exit code 0 these tests write the note [expected pass, got fail]
    to the log whether the result passes or not: [test_error] at depth 2,
    [test_fault] at depth 0. *)
Theorem success_path_logs_note start log program w w1 w2 rt1 rt2 :
  execute start program ["error"] 1%Q w = (Ok rt1, w1) ->
  execute start program ["fault"] 1%Q w = (Ok rt2, w2) ->
  code rt1 = Some 0 ->
  code rt2 = Some 0 ->
  test_error start log program w
    = (Ok (mkCorrectnessResult (String.eqb (strip (stdout rt1)) "pass") rt1,
           log ++ [(2, [LStr "expected pass, got fail"])]), w1) /\
  test_fault start log program w
    = (Ok (mkCorrectnessResult (String.eqb (strip (stdout rt2)) "pass") rt2,
           log ++ [(0, [LStr "expected pass, got fail"])]), w2).
Proof.
  intros H1 H2 Hc1 Hc2. split.
  - unfold test_error, mbind, M_bind. rewrite H1, Hc1. reflexivity.
  - unfold test_fault, mbind, M_bind. rewrite H2, Hc2. reflexivity.
Qed.

Lemma success_path_logs_note_witness :
  test_fault (always good) [] (mkExecutable "build/program") samples.empty_world
  = (Ok (mkCorrectnessResult true (process.observe good 1),
         [(0, [LStr "expected pass, got fail"])]), samples.empty_world).
Proof.
  destruct (success_path_logs_note (always good) [] (mkExecutable "build/program")
              samples.empty_world samples.empty_world samples.empty_world
              (process.observe good 1) (process.observe good 1))
    as [_ Hfault];
    [reflexivity | reflexivity | reflexivity | reflexivity | exact Hfault].
Defined.

(** After an exit code other than 0, [test_fault] logs the code at depth
    2, each non-empty line of stderr at depth 4 in order, and the
    segmentation-fault note exactly when the code is -11: any other signal
    or status gets no note. *)
Theorem fault_log_shape start log program w w' rt :
  execute start program ["fault"] 1%Q w = (Ok rt, w') ->
  code rt <> Some 0 ->
  test_fault start log program w =
  (Ok (mkCorrectnessResult false rt,
       log ++ [(2, [LStr "received return code"; code_value (code rt)])] ++
       List.map (fun line => (4, [LStr line]))
         (List.filter nonempty (split_lines (stderr rt))) ++
       (if code_is (code rt) (-11) then [(4, [LStr "segmentation fault"])] else [])),
   w').
Proof.
  intros Hrun Hcode.
  assert (negb (code_is (code rt) 0) = true) as Hne.
  { destruct (code rt) as [n|]; [|reflexivity]. simpl.
    apply negb_true_iff, Z.eqb_neq. congruence. }
  unfold test_fault, mbind, M_bind. rewrite Hrun, Hne.
  rewrite log_lines_app. unfold log_at.
  destruct (code_is (code rt) (-11)); simpl; by rewrite <- ?app_assoc, ?app_nil_r.
Qed.

Lemma fault_log_shape_witness :
  test_fault (always late_abort) [] (mkExecutable "build/program") samples.empty_world
  = (Ok (mkCorrectnessResult false (process.observe late_abort 1),
         [(2, [LStr "received return code"; LInt (-6)]); (4, [LStr "abort"])]),
     samples.empty_world).
Proof.
  rewrite (fault_log_shape (always late_abort) [] (mkExecutable "build/program")
             samples.empty_world samples.empty_world (process.observe late_abort 1)).
  - reflexivity.
  - reflexivity.
  - vm_compute. discriminate.
Defined.
End tests_facts.

(** ** Validators and prompting *)

Module generate_facts.
Import generate.

(** A response all validators accept is accepted without a word beyond
    what they print; a refused response shows what the validators printed
    up to and including the first that refused, and the later validators
    are not asked. *)
Theorem all_valid_first_refusal (validators : list Validator) response :
  ((all_valid validators response).1 = true <->
   Forall (fun v : Validator => (v response).1 = true) validators) /\
  (forall before v after,
     validators = before ++ v :: after ->
     Forall (fun u : Validator => (u response).1 = true) before ->
     (v response).1 = false ->
     all_valid validators response =
     (false, concat (List.map (fun u : Validator => (u response).2) before)
             ++ (v response).2)).
Proof.
  split.
  - induction validators as [|v vs IH]; simpl.
    + split; [constructor | reflexivity].
    + destruct (v response) as [ok out] eqn:Hv. destruct ok.
      * destruct (all_valid vs response) as [ok' out']. simpl in *.
        rewrite IH. split.
        -- intros H. constructor; [by rewrite Hv | assumption].
        -- intros H. by apply Forall_cons in H as [_ H].
      * simpl. split; [discriminate|]. intros H.
        apply Forall_cons in H as [H _]. by rewrite Hv in H.
  - intros before. revert validators.
    induction before as [|u before IH]; intros validators v after -> Hall Hv; simpl.
    + destruct (v response) as [ok out]. simpl in Hv. subst ok.
      reflexivity.
    + apply Forall_cons in Hall as [Hu Hall].
      destruct (u response) as [ok out]. simpl in Hu. subst ok.
      rewrite (IH _ v after eq_refl Hall Hv). simpl. by rewrite app_assoc.
Qed.

Lemma all_valid_first_refusal_witness :
  all_valid [validate_not_empty; validate_numeric; validate_not_empty] "abc"
  = (false, [Print "Must be a positive integer!"]).
Proof.
  apply (proj2 (all_valid_first_refusal
                  [validate_not_empty; validate_numeric; validate_not_empty] "abc")
           [validate_not_empty] validate_numeric [validate_not_empty]).
  - reflexivity.
  - constructor; [reflexivity | constructor].
  - reflexivity.
Defined.

(** What [validated_input] can end with: a line of the input that all
    validators accept, every line before it having been refused; the end of
    the input, every line having been refused; or the first interrupt,
    again after refused lines only.  It never hands back a refused line,
    and it reads no further than the line it hands back. *)
Theorem validated_input_outcome prompt validators input :
  match validated_input prompt validators input with
  | (Got response, remains, _) =>
      (all_valid validators response).1 = true /\
      exists refused,
        input = List.map Line refused ++ Line response :: remains /\
        Forall (fun l => (all_valid validators l).1 = false) refused
  | (EOFError, remains, _) =>
      remains = [] /\
      exists refused,
        input = List.map Line refused /\
        Forall (fun l => (all_valid validators l).1 = false) refused
  | (KeyboardInterrupt, remains, _) =>
      exists refused,
        input = List.map Line refused ++ Interrupt :: remains /\
        Forall (fun l => (all_valid validators l).1 = false) refused
  end.
Proof.
  induction input as [|[response|] input IH]; simpl.
  - split; [reflexivity|]. exists []. split; [reflexivity | constructor].
  - destruct (all_valid validators response) as [ok out] eqn:Hv. destruct ok.
    + split; [by rewrite Hv|]. exists []. split; [reflexivity | constructor].
    + destruct (validated_input prompt validators input) as [[answer remains] shown].
      destruct answer as [r| |].
      * destruct IH as (Hr & refused & -> & Hall). split; [assumption|].
        exists (response :: refused). split; [reflexivity|].
        constructor; [by rewrite Hv | assumption].
      * destruct IH as (-> & refused & -> & Hall). split; [reflexivity|].
        exists (response :: refused). split; [reflexivity|].
        constructor; [by rewrite Hv | assumption].
      * destruct IH as (refused & -> & Hall).
        exists (response :: refused). split; [reflexivity|].
        constructor; [by rewrite Hv | assumption].
  - exists []. split; [reflexivity | constructor].
Qed.

(** The prompt is shown once for every line read, each time followed by
    what the validators printed for that line. *)
Theorem validated_input_shown prompt validators refused response rest :
  Forall (fun l => (all_valid validators l).1 = false) refused ->
  (all_valid validators response).1 = true ->
  validated_input prompt validators (List.map Line refused ++ Line response :: rest) =
  (Got response, rest,
   concat (List.map (fun l => Prompt prompt :: (all_valid validators l).2)
             (refused ++ [response]))).
Proof.
  intros Hall Hok. induction Hall as [|l refused Hl _ IH]; simpl.
  - destruct (all_valid validators response) as [ok out]. simpl in Hok. subst ok.
    by rewrite app_nil_r.
  - destruct (all_valid validators l) as [ok out]. simpl in Hl. subst ok.
    simpl in IH. rewrite IH. reflexivity.
Qed.

Lemma validated_input_shown_witness :
  validated_input "Minutes: " [validate_not_empty; validate_numeric]
    [Line ""; Line "ten"; Line "10"; Line "11"] =
  (Got "10", [Line "11"],
   [Prompt "Minutes: "; Print "Must not be empty!";
    Prompt "Minutes: "; Print "Must be a positive integer!";
    Prompt "Minutes: "]).
Proof.
  apply (validated_input_shown "Minutes: " [validate_not_empty; validate_numeric]
           [""; "ten"] "10" [Line "11"]).
  - constructor; [reflexivity|]. constructor; [reflexivity | constructor].
  - reflexivity.
Defined.

(** *** [validate_numeric] and [int()] *)









(** An answer [validate_boolean] accepts is read as yes exactly when it
    is y or yes in some mix of cases, and as no exactly when it is n or
    no. *)
Theorem boolean_answer s :
  (validate_boolean s).1 = true ->
  (answers_yes s = true <-> lower s = "y" \/ lower s = "yes") /\
  (answers_yes s = false <-> lower s = "n" \/ lower s = "no").
Proof.
  unfold validate_boolean, answers_yes.
  destruct (existsb _ _) eqn:Hin; [|discriminate]. intros _.
  apply existsb_exists in Hin as (word & Hword & Heq).
  apply String.eqb_eq in Heq. rewrite Heq.
  destruct Hword as [<- | [<- | [<- | [<- | []]]]]; simpl;
    (split;
     (split; [intros H; try discriminate H; auto
             | intros [H|H]; try discriminate H; reflexivity])).
Qed.

Lemma boolean_answer_witness :
  answers_yes "YeS" = true /\ answers_yes "N" = false.
Proof.
  destruct (boolean_answer "YeS") as [[_ Hyes] _]; [reflexivity|].
  destruct (boolean_answer "N") as [_ [_ Hno]]; [reflexivity|].
  split; [apply Hyes; by right | apply Hno; by left].
Defined.
End generate_facts.
